(** * NarrativeSphereAI: network topology, messages, world state and the
      node pipeline

    A shallow embedding of [src/common/base.py], [src/graph/node.py] and
    [src/graph/state.py], and the properties of the specification checked
    against it.

    Conventions of the embedding.
    - A Python exception is a value [Raise e]; a method that mutates [self]
      is a function from the state before to a result and the state after,
      so what a raising call leaves behind stays visible.
    - Floats are the rationals they denote ([Q]); the comparisons of the
      source ([<], [<=], [>], [>=]) are exact on them.
    - [random.random()] reads the next element of a stream of draws;
      [datetime.now()] reads the next stamp of a clock; [uuid.uuid4()] is a
      value handed in by the caller.
    - The content of a message is an object of its own, held in a store and
      reached through a reference, so that two messages can share it.
    - [networkx.DiGraph] and [json] are libraries the repository imports;
      they are modelled by the part of their documented behaviour the
      repository relies on. *)

From Stdlib Require Import QArith.
From stdpp Require Import base option list strings gmap.

Open Scope string_scope.
Open Scope list_scope.

(** ** Exceptions and results *)

(** The exceptions of Python and networkx that the code can raise, and
    [CommitFailure], the error with which the history log of the
    specification turns down an append. *)
Inductive exn :=
  TypeError | KeyError | ValueError | AttributeError | NetworkXError
| CommitFailure.

Inductive result (A : Type) :=
| Ok (a : A)
| Raise (e : exn).
Arguments Ok {A} a.
Arguments Raise {A} e.

(** A method on a mutable object: the result, and the object afterwards. *)
Definition M (S A : Type) : Type := S -> result A * S.

Definition ret {S A} (a : A) : M S A := fun s => (Ok a, s).
Definition raise {S A} (e : exn) : M S A := fun s => (Raise e, s).
Definition bind {S A B} (m : M S A) (k : A -> M S B) : M S B :=
  fun s => match m s with
           | (Ok a, s') => k a s'
           | (Raise e, s') => (Raise e, s')
           end.

Notation "'let*' x := m 'in' k" := (bind m (fun x => k))
  (at level 10, x pattern, m at level 100, k at level 200).

(** ** Python values

    The values that travel through messages and JSON documents.  A [dict]
    is an association list in insertion order. *)

#[local] Unset Elimination Schemes.
Inductive pyval :=
| VNone
| VBool (b : bool)
| VInt (z : Z)
| VFloat (q : Q)
| VStr (s : string)
| VList (l : list pyval)
| VDict (d : list (string * pyval)).
#[local] Set Elimination Schemes.

#[global] Instance pyval_inhabited : Inhabited pyval := populate VNone.

(** ** Floats as rationals *)

Definition Qleb (x y : Q) : bool := Qle_bool x y.
Definition Qltb (x y : Q) : bool := negb (Qle_bool y x).

(** ** The random source *)

Record Rng := { draws : nat -> Q; pos : nat }.

(** [random.random()] *)
Definition random (r : Rng) : Q * Rng :=
  (draws r (pos r), {| draws := draws r; pos := S (pos r) |}).

(** Every draw lies in [[0, 1)]. *)
Definition unit_draws (r : Rng) : Prop :=
  forall i, (0 <= draws r i)%Q /\ (draws r i < 1)%Q.

(** ** networkx.DiGraph

    Nodes in insertion order, edges in insertion order; both without
    repetition, as the keys of the dictionaries networkx keeps. *)

Module DiGraph.

Record t := mk { nodes : list string; edges : list (string * string) }.

Definition empty : t := mk [] [].

Definition has_node (g : t) (n : string) : bool := bool_decide (n ∈ nodes g).

Definition has_edge (g : t) (u v : string) : bool :=
  bool_decide ((u, v) ∈ edges g).

Definition add_node (g : t) (n : string) : t :=
  if has_node g n then g else mk (nodes g ++ [n]) (edges g).

Definition add_nodes_from (g : t) (ns : list string) : t :=
  foldl add_node g ns.

(** [add_edge] adds the end points that are not nodes yet. *)
Definition add_edge (g : t) (u v : string) : t :=
  let g' := add_node (add_node g u) v in
  if has_edge g' u v then g' else mk (nodes g') (edges g' ++ [(u, v)]).

(** [remove_edge] raises [NetworkXError] when the edge is not there. *)
Definition remove_edge (g : t) (u v : string) : result t :=
  if has_edge g u v
  then Ok (mk (nodes g) (filter (fun e => e ≠ (u, v)) (edges g)))
  else Raise NetworkXError.

Definition successors (g : t) (n : string) : list string :=
  (filter (fun e => e.1 = n) (edges g)).*2.

End DiGraph.

(** ** itertools.permutations(xs, 2)

    All ordered pairs of two different positions, in lexicographic order of
    the positions. *)

Definition permutations2 {A} (xs : list A) : list (A * A) :=
  mjoin (imap (fun i x =>
    mjoin (imap (fun j y => if decide (i = j) then [] else [(x, y)]) xs)) xs).

(** ** BaseNetwork *)

Module BaseNetwork.

Record t := {
  agent_ids : list string;
  p : Q;
  graph : DiGraph.t;
  uuid : string
}.

Definition with_graph (n : t) (g : DiGraph.t) : t :=
  {| agent_ids := agent_ids n; p := p n; graph := g; uuid := uuid n |}.

(** The loop of [generate_random_digraph] over the remaining pairs. *)
Fixpoint generate_pairs (prob : Q) (pairs : list (string * string))
    (g : DiGraph.t) (r : Rng) : DiGraph.t * Rng :=
  match pairs with
  | [] => (g, r)
  | (start, end_) :: rest =>
      if DiGraph.has_edge g end_ start then generate_pairs prob rest g r
      else
        let '(x, r') := random r in
        if Qleb x prob
        then generate_pairs prob rest (DiGraph.add_edge g start end_) r'
        else generate_pairs prob rest g r'
  end.

Definition generate_random_digraph (n : t) (r : Rng) : t * Rng :=
  let '(g, r') :=
    generate_pairs (p n) (permutations2 (agent_ids n)) (graph n) r in
  (with_graph n g, r').

(** [__init__]; [fresh_uuid] is the value of [uuid.uuid4()]. *)
Definition init (ids : list string) (prob : Q) (fresh_uuid : string)
    (r : Rng) : t * Rng :=
  let n0 := {| agent_ids := ids; p := prob;
               graph := DiGraph.add_nodes_from DiGraph.empty ids;
               uuid := "" |} in
  let '(n1, r') := generate_random_digraph n0 r in
  ({| agent_ids := agent_ids n1; p := p n1; graph := graph n1;
      uuid := fresh_uuid |}, r').

Definition disconnect_edge (start end_ : string) : M t pyval :=
  fun n =>
    if DiGraph.has_edge (graph n) start end_
    then match DiGraph.remove_edge (graph n) start end_ with
         | Ok g => (Ok VNone, with_graph n g)
         | Raise e => (Raise e, n)
         end
    else (Ok VNone, n).

Definition connect_edge (start end_ : string) : M t pyval :=
  fun n =>
    if negb (DiGraph.has_edge (graph n) start end_)
    then (Ok VNone, with_graph n (DiGraph.add_edge (graph n) start end_))
    else (Ok VNone, n).

Definition reverse_edge (start end_ : string) : M t pyval :=
  fun n =>
    match DiGraph.remove_edge (graph n) start end_ with
    | Ok g => (Ok VNone, with_graph n (DiGraph.add_edge g end_ start))
    | Raise e => (Raise e, n)
    end.

(** [agreement] ignores its arguments and draws once. *)
Definition agreement (start end_ : string) (r : Rng) : bool * Rng :=
  let '(x, r') := random r in (Qltb x (1 # 2), r').

(** [execute]; [method] is the agreement predicate handed in.  The
    [reverse] branch returns what [reverse_edge] returns. *)
Definition execute (start end_ : string)
    (method : string -> string -> string -> bool) (action : string)
    : M t pyval :=
  if method start end_ action then
    if decide (action = "reverse") then reverse_edge start end_
    else if decide (action = "disconnect") then
      let* _ := disconnect_edge start end_ in ret (VBool true)
    else if decide (action = "connect") then
      let* _ := connect_edge start end_ in ret (VBool true)
    else raise ValueError
  else ret (VBool false).

End BaseNetwork.

(** A sequence of [execute] calls on one network, all with the same
    predicate; it stops at the first call that raises. *)
Fixpoint execute_all (method : string -> string -> string -> bool)
    (calls : list (string * string * string))
    : M BaseNetwork.t (list pyval) :=
  match calls with
  | [] => ret []
  | (start, end_, action) :: rest =>
      let* v := BaseNetwork.execute start end_ method action in
      let* vs := execute_all method rest in
      ret (v :: vs)
  end.

(** The invariant of the topology: no two distinct agents are joined in
    both directions. *)
Definition no_bidirectional (g : DiGraph.t) : Prop :=
  forall a b, a ≠ b ->
    ¬ (DiGraph.has_edge g a b = true /\ DiGraph.has_edge g b a = true).

(** ** Dictionaries and subscripts *)

Fixpoint dict_get {V} (d : list (string * V)) (k : string) : option V :=
  match d with
  | [] => None
  | (k', v) :: rest => if decide (k' = k) then Some v else dict_get rest k
  end.

(** [d[k] = v]: an existing key keeps its place, a new one goes last. *)
Fixpoint dict_set {V} (d : list (string * V)) (k : string) (v : V)
    : list (string * V) :=
  match d with
  | [] => [(k, v)]
  | (k', v') :: rest =>
      if decide (k' = k) then (k, v) :: rest else (k', v') :: dict_set rest k v
  end.

(** [data[key]] for a string key. *)
Definition py_getitem (data : pyval) (key : string) : result pyval :=
  match data with
  | VDict d => match dict_get d key with
               | Some v => Ok v
               | None => Raise KeyError
               end
  | _ => Raise TypeError
  end.

(** [data[key] = v] for a string key: only a dict takes it. *)
Definition py_setitem (data : pyval) (key : string) (v : pyval)
    : result pyval :=
  match data with
  | VDict d => Ok (VDict (dict_set d key v))
  | _ => Raise TypeError
  end.

(** [data.get(key, default)] *)
Definition py_get (data : pyval) (key : string) (default : pyval)
    : result pyval :=
  match data with
  | VDict d => Ok (from_option id default (dict_get d key))
  | _ => Raise AttributeError
  end.

(** The number a value stands for in an order comparison with a float. *)
Definition as_number (v : pyval) : option Q :=
  match v with
  | VBool b => Some (if b then 1 else 0)%Q
  | VInt z => Some (inject_Z z)
  | VFloat q => Some q
  | _ => None
  end.

(** [v > t] and [v >= t] for a float [t]. *)
Definition py_gt (v : pyval) (t : Q) : result bool :=
  match as_number v with
  | Some q => Ok (Qltb t q)
  | None => Raise TypeError
  end.

Definition py_ge (v : pyval) (t : Q) : result bool :=
  match as_number v with
  | Some q => Ok (Qleb t q)
  | None => Raise TypeError
  end.

(** The keys of every dict are pairwise different, at every depth. *)
Fixpoint wf_pyval (v : pyval) : bool :=
  match v with
  | VList l => forallb wf_pyval l
  | VDict d => bool_decide (NoDup d.*1) && forallb (fun kv => wf_pyval kv.2) d
  | _ => true
  end.

(** ** json

    A JSON text is represented by the document it denotes. *)

#[local] Unset Elimination Schemes.
Inductive json :=
| JNull
| JBool (b : bool)
| JInt (z : Z)
| JFloat (q : Q)
| JString (s : string)
| JArray (items : list json)
| JObject (members : list (string * json)).
#[local] Set Elimination Schemes.

Fixpoint json_dumps (v : pyval) : json :=
  match v with
  | VNone => JNull
  | VBool b => JBool b
  | VInt z => JInt z
  | VFloat q => JFloat q
  | VStr s => JString s
  | VList l => JArray (map json_dumps l)
  | VDict d => JObject (map (fun kv => (kv.1, json_dumps kv.2)) d)
  end.

(** [json.loads]: the members of an object are inserted one after the
    other, so a repeated name keeps its first place and its last value. *)
Fixpoint json_loads (j : json) : pyval :=
  match j with
  | JNull => VNone
  | JBool b => VBool b
  | JInt z => VInt z
  | JFloat q => VFloat q
  | JString s => VStr s
  | JArray l => VList (map json_loads l)
  | JObject ms =>
      VDict (foldl (fun acc kv => dict_set acc kv.1 (json_loads kv.2)) [] ms)
  end.

(** ** The process state: content objects, random source, clock *)

Definition loc := positive.

Record Clock := { stamps : nat -> string; ticks : nat }.

Record World := {
  heap : gmap loc pyval;
  rng : Rng;
  clock : Clock
}.

(** [datetime.now().isoformat()] *)
Definition now : M World string :=
  fun w => (Ok (stamps (clock w) (ticks (clock w))),
            {| heap := heap w; rng := rng w;
               clock := {| stamps := stamps (clock w);
                           ticks := S (ticks (clock w)) |} |}).

(** [random.random()] on the process state. *)
Definition draw : M World Q :=
  fun w => let '(x, r) := random (rng w) in
           (Ok x, {| heap := heap w; rng := r; clock := clock w |}).

(** A new object holding [v]. *)
Definition alloc (v : pyval) : M World loc :=
  fun w => let l := fresh (dom (heap w)) in
           (Ok l, {| heap := <[l := v]> (heap w); rng := rng w;
                     clock := clock w |}).

Definition load (w : World) (l : loc) : pyval := heap w !!! l.

Definition store (l : loc) (v : pyval) : M World () :=
  fun w => (Ok (), {| heap := <[l := v]> (heap w); rng := rng w;
                      clock := clock w |}).

(** ** Instances and attributes *)

Inductive attr :=
| AVal (v : pyval)
| ARef (l : loc).

(** The [__dict__] of an instance, in assignment order. *)
Definition instance := list (string * attr).

Definition getattr (o : instance) (name : string) (default : attr) : attr :=
  from_option id default (dict_get o name).

(** ** BaseMessage *)

Module BaseMessage.

Record t := {
  sender : pyval;
  receiver : pyval;
  message_type : pyval;
  content : loc;
  timestamp : string
}.

(** [__init__]: five attributes are assigned; [contribution_metric] is
    not among them. *)
Definition init (sender receiver message_type : pyval) (content : loc)
    (contribution_metric : pyval) : M World t :=
  let* ts := now in
  ret {| sender := sender; receiver := receiver;
         message_type := message_type; content := content;
         timestamp := ts |}.

(** The arguments of a call [BaseMessage(...)]; [None] is an argument
    the call does not give. *)
Record args := {
  a_sender : option pyval;
  a_receiver : option pyval;
  a_message_type : option pyval;
  a_content : option loc;
  a_contribution_metric : option pyval
}.

(** A call of the class: the four parameters without a default must be
    given, else [TypeError]. *)
Definition new (a : args) : M World t :=
  match a_sender a, a_receiver a, a_message_type a, a_content a with
  | Some s, Some r, Some ty, Some c =>
      init s r ty c (default (VFloat 0) (a_contribution_metric a))
  | _, _, _, _ => raise TypeError
  end.

(** The attributes [__init__] leaves on the instance. *)
Definition vars (m : t) : instance :=
  [("sender", AVal (sender m)); ("receiver", AVal (receiver m));
   ("message_type", AVal (message_type m)); ("content", ARef (content m));
   ("timestamp", AVal (VStr (timestamp m)))].

Definition to_json (m : t) (w : World) : json :=
  json_dumps (VDict [("sender", sender m); ("receiver", receiver m);
                     ("message_type", message_type m);
                     ("content", load w (content m));
                     ("timestamp", VStr (timestamp m))]).

Section Parsing.

(** [json.loads] on a string that is held as data: the text it parses to,
    or [ValueError] (of which [JSONDecodeError] is a kind). *)
Variable json_parse : string -> result json.

(** The data [from_json] works on.  [inl] is a string given by the JSON
    text it holds; [inr] is any value: a string among them is parsed like
    every string ([isinstance(json_str, str)]), anything else is taken as
    it is. *)
Definition data_of (json_str : json + pyval) : result pyval :=
  match json_str with
  | inl text => Ok (json_loads text)
  | inr (VStr s) =>
      match json_parse s with
      | Ok text => Ok (json_loads text)
      | Raise e => Raise e
      end
  | inr d => Ok d
  end.

(** [from_json].  The content read from the data becomes an object of its
    own. *)
Definition from_json (json_str : json + pyval) : M World t :=
  match data_of json_str with
  | Raise e => raise e
  | Ok data =>
  match py_getitem data "sender" with
  | Raise e => raise e
  | Ok s =>
  match py_getitem data "receiver" with
  | Raise e => raise e
  | Ok r =>
  match py_getitem data "message_type" with
  | Raise e => raise e
  | Ok ty =>
  match py_getitem data "content" with
  | Raise e => raise e
  | Ok c =>
      let* l := alloc c in
      new {| a_sender := Some s; a_receiver := Some r;
             a_message_type := Some ty; a_content := Some l;
             a_contribution_metric := None |}
  end end end end end.

End Parsing.

End BaseMessage.

(** ** MessageManager *)

Module MessageManager.

Record t := { _messages : list instance }.

Definition init : t := {| _messages := [] |}.

Definition add_message (message : instance) (self : t) : t :=
  {| _messages := _messages self ++ [message] |}.

Definition get_messages (self : t) : list instance := _messages self.

(** [getattr(m, "contribution_metric", 0) >= threshold]; an attribute
    that holds an object reference does not compare with a float. *)
Definition metric_ge (m : instance) (threshold : Q) : result bool :=
  match getattr m "contribution_metric" (AVal (VInt 0)) with
  | AVal v => py_ge v threshold
  | ARef _ => Raise TypeError
  end.

Fixpoint filter_loop (ms : list instance) (threshold : Q)
    : result (list instance) :=
  match ms with
  | [] => Ok []
  | m :: rest =>
      match metric_ge m threshold with
      | Raise e => Raise e
      | Ok b =>
          match filter_loop rest threshold with
          | Raise e => Raise e
          | Ok out => Ok (if b then m :: out else out)
          end
      end
  end.

Definition filter_by_metric (self : t) (threshold : Q)
    : result (list instance) :=
  filter_loop (_messages self) threshold.

Definition clear_messages (self : t) : t := {| _messages := [] |}.

End MessageManager.

(** ** Objects that are not plain data

    What [WorldState] may be handed as [base_network]: plain data, something
    callable (a class or a function), or a network instance. *)

#[local] Unset Elimination Schemes.
Inductive pyobj :=
| Data (v : pyval)
| Callable (f : pyval -> result pyobj)
| NetworkObj (n : BaseNetwork.t).
#[local] Set Elimination Schemes.

(** [f(arg)]: only a callable can be called. *)
Definition call (f : pyobj) (arg : pyval) : result pyobj :=
  match f with
  | Callable g => g arg
  | _ => Raise TypeError
  end.

Definition is_None (o : pyobj) : bool :=
  match o with
  | Data VNone => true
  | _ => false
  end.

(** [x if x is not None else d] *)
Definition or_default (x d : pyval) : pyval :=
  match x with
  | VNone => d
  | _ => x
  end.

(** ** WorldState *)

Module WorldState.

Record t := {
  base_network : pyobj;
  global_events : pyval;
  local_events : pyval;
  agent_states : pyval;
  global_motifs : pyval
}.

(** [__init__]: a [base_network] that is not [None] is called on
    [agent_list]. *)
Definition init (agent_list : pyval) (base_network : pyobj)
    (global_events local_events agent_states global_motifs : pyval)
    : result t :=
  match (if is_None base_network then Ok (Data (VDict []))
         else call base_network agent_list) with
  | Raise e => Raise e
  | Ok bn =>
      Ok {| base_network := bn;
            global_events := or_default global_events (VList []);
            local_events := or_default local_events (VList []);
            agent_states := or_default agent_states (VList []);
            global_motifs := or_default global_motifs (VList []) |}
  end.

(** [to_json]: only plain data can be dumped. *)
Definition to_json (w : t) : result json :=
  match base_network w with
  | Data bn =>
      Ok (json_dumps (VDict [("base_network", bn);
                             ("global_events", global_events w);
                             ("local_events", local_events w);
                             ("agent_states", agent_states w);
                             ("global_motifs", global_motifs w)]))
  | _ => Raise TypeError
  end.

Definition from_json (json_str : json) : result t :=
  let data := json_loads json_str in
  match py_get data "base_network" (VDict []) with
  | Raise e => Raise e
  | Ok bn =>
  match py_get data "global_events" (VList []) with
  | Raise e => Raise e
  | Ok ge =>
  match py_get data "local_events" (VList []) with
  | Raise e => Raise e
  | Ok le =>
  match py_get data "agent_states" (VList []) with
  | Raise e => Raise e
  | Ok st =>
  match py_get data "global_motifs" (VList []) with
  | Raise e => Raise e
  | Ok gm => init VNone (Data bn) ge le st gm
  end end end end end.

End WorldState.

(** ** Collaborators of Node

    Modelled from the spec: [Broadcast] of [common/broadcast.py] is not
    among the sources.  The spec's BroadcastChannel is an ordered sequence
    of messages awaiting evaluation and commit, together with the
    topologies it fans out across; [Broadcast(messages, networks)] is read
    as that pair. *)

Record Broadcast := {
  messages : list BaseMessage.t;
  networks : list BaseNetwork.t
}.

(** Modelled from the spec: [Chain] of [graph/chain.py] is not among the
    sources.  The spec's history log is append-only: [add_block(message)]
    appends the message, or the log rejects the append and the failure
    surfaces as an explicit error, the log keeping the blocks it had.  The
    log is the sequence of the messages appended; [rejects] tells with
    which exception, if any, a log turns down the append of a message. *)

Record Chain := { blocks : list BaseMessage.t }.

Definition add_block (rejects : Chain -> BaseMessage.t -> option exn)
    (message : BaseMessage.t) (c : Chain) : result Chain :=
  match rejects c message with
  | Some e => Raise e
  | None => Ok {| blocks := blocks c ++ [message] |}
  end.

(** ** Node *)

Module Node.

Record t := {
  base_network : BaseNetwork.t;
  broadcast : Broadcast;
  chain : Chain;
  p : Q;
  node_id : string
}.

(** [__init__]; [fresh_uuid] is the value of [uuid.uuid4()]. *)
Definition init (base_network : BaseNetwork.t) (p : Q)
    (fresh_uuid : string) : t :=
  {| base_network := base_network;
     broadcast := {| messages := []; networks := [base_network] |};
     chain := {| blocks := [] |};
     p := p;
     node_id := fresh_uuid |}.

(** A method of a node runs on the node and the process state. *)
Record state := { self : t; world : World }.

Definition in_world {A} (m : M World A) : M state A :=
  fun s => let '(r, w) := m (world s) in (r, {| self := self s; world := w |}).

Definition get_self : M state t := fun s => (Ok (self s), s).

(** [self.broadcast.messages.append(message)] *)
Definition append_message (message : BaseMessage.t) : M state () :=
  fun s =>
    (Ok (),
     {| self := {| base_network := base_network (self s);
                   broadcast :=
                     {| messages := messages (broadcast (self s)) ++ [message];
                        networks := networks (broadcast (self s)) |};
                   chain := chain (self s);
                   p := p (self s);
                   node_id := node_id (self s) |};
        world := world s |}).

(** The loop of [broadcast_messages] over the remaining nodes.  The call
    of [BaseMessage] gives [sender], [receiver] and [content]. *)
Fixpoint broadcast_loop (messagee : BaseMessage.t) (nodes : list string)
    : M state () :=
  match nodes with
  | [] => ret ()
  | node :: rest =>
      let* x := in_world draw in
      let* me := get_self in
      if Qltb x (p me) then
        let* message :=
          in_world (BaseMessage.new
            {| BaseMessage.a_sender := Some (VStr "CentralNod");
               BaseMessage.a_receiver := Some (VStr node);
               BaseMessage.a_message_type := None;
               BaseMessage.a_content := Some (BaseMessage.content messagee);
               BaseMessage.a_contribution_metric := None |}) in
        let* _ := append_message message in
        broadcast_loop messagee rest
      else broadcast_loop messagee rest
  end.

Definition broadcast_messages (messagee : BaseMessage.t) : M state () :=
  fun s =>
    broadcast_loop messagee
      (DiGraph.nodes (BaseNetwork.graph (base_network (self s)))) s.

Section Scoring.

(** [state.evaluate]: the scoring collaborator; no module among the
    sources defines it.  It returns a float or raises. *)
Variable evaluate : pyval -> result Q.

(** The loop of [evaluate_messages]: the score is computed first, then
    written under ["importance"] into the content object itself. *)
Fixpoint evaluate_loop (ms : list BaseMessage.t) : M state () :=
  match ms with
  | [] => ret ()
  | message :: rest =>
      fun s =>
        let c := load (world s) (BaseMessage.content message) in
        match evaluate c with
        | Raise e => (Raise e, s)
        | Ok score =>
            match py_setitem c "importance" (VFloat score) with
            | Raise e => (Raise e, s)
            | Ok c' =>
                (let* _ := in_world (store (BaseMessage.content message) c') in
                 evaluate_loop rest) s
            end
        end
  end.

Definition evaluate_messages : M state () :=
  fun s => evaluate_loop (messages (broadcast (self s))) s.

End Scoring.

Section Committing.

(** How the history log of the node answers an append. *)
Variable rejects : Chain -> BaseMessage.t -> option exn.

(** [self.chain.add_block(message)]: what the log raises goes to the
    caller, the node being left as it was. *)
Definition commit (message : BaseMessage.t) : M state () :=
  fun s =>
    match add_block rejects message (chain (self s)) with
    | Raise e => (Raise e, s)
    | Ok c =>
        (Ok (),
         {| self := {| base_network := base_network (self s);
                       broadcast := broadcast (self s);
                       chain := c;
                       p := p (self s);
                       node_id := node_id (self s) |};
            world := world s |})
    end.

(** The loop of [cherrypick_messages]. *)
Fixpoint cherrypick_loop (ms : list BaseMessage.t) : M state () :=
  match ms with
  | [] => ret ()
  | message :: rest =>
      fun s =>
        let c := load (world s) (BaseMessage.content message) in
        match py_getitem c "importance" with
        | Raise e => (Raise e, s)
        | Ok v =>
            match py_gt v (1 # 2) with
            | Raise e => (Raise e, s)
            | Ok true => (let* _ := commit message in cherrypick_loop rest) s
            | Ok false => cherrypick_loop rest s
            end
        end
  end.

Definition cherrypick_messages : M state () :=
  fun s => cherrypick_loop (messages (broadcast (self s))) s.

End Committing.

End Node.

(** The importance a buffered message carries, when its content is a dict
    with a number under ["importance"]. *)
Definition importance (w : World) (m : BaseMessage.t) : option Q :=
  match load w (BaseMessage.content m) with
  | VDict d => dict_get d "importance" ≫= as_number
  | _ => None
  end.

(** The message has been given an importance. *)
Definition scored (w : World) (m : BaseMessage.t) : Prop :=
  is_Some (importance w m).

(** The messages of [ms] whose importance is above the threshold. *)
Definition above_threshold (w : World) (ms : list BaseMessage.t)
    : list BaseMessage.t :=
  filter (fun m => from_option (Qltb (1 # 2)) false (importance w m) = true) ms.

(** The log [c] takes the appends of [ms], one after the other. *)
Fixpoint accepts_all (rejects : Chain -> BaseMessage.t -> option exn)
    (c : Chain) (ms : list BaseMessage.t) : Prop :=
  match ms with
  | [] => True
  | m :: rest =>
      rejects c m = None /\
      accepts_all rejects {| blocks := blocks c ++ [m] |} rest
  end.

(** A parser that knows the text [null] and nothing else. *)
Definition parse_null (s : string) : result json :=
  if decide (s = "null") then Ok JNull else Raise ValueError.

(** A log that takes every append, and a log that holds [n] blocks at
    most. *)
Definition log_open (c : Chain) (m : BaseMessage.t) : option exn := None.

Definition log_bounded (n : nat) (c : Chain) (m : BaseMessage.t)
    : option exn :=
  if decide (n <= length (blocks c)) then Some CommitFailure else None.

(** ** Well-formed graphs

    Every end point of an edge is a node, and nothing is listed twice: what
    the dictionaries of networkx guarantee. *)
Definition graph_wf (g : DiGraph.t) : Prop :=
  NoDup (DiGraph.nodes g) /\ NoDup (DiGraph.edges g) /\
  forall a b, (a, b) ∈ DiGraph.edges g ->
    a ∈ DiGraph.nodes g /\ b ∈ DiGraph.nodes g.

(** ** Sample data *)

(** A network with the single edge [a -> b]. *)
Definition net_ab : BaseNetwork.t :=
  {| BaseNetwork.agent_ids := ["a"; "b"];
     BaseNetwork.p := 1 # 2;
     BaseNetwork.graph := DiGraph.mk ["a"; "b"] [("a", "b")];
     BaseNetwork.uuid := "u" |}.

(** A network with the single edge [a -> a]. *)
Definition net_loop : BaseNetwork.t :=
  {| BaseNetwork.agent_ids := ["a"];
     BaseNetwork.p := 1 # 2;
     BaseNetwork.graph := DiGraph.mk ["a"] [("a", "a")];
     BaseNetwork.uuid := "u" |}.

Definition zero_draws : Rng := {| draws := fun _ => 0%Q; pos := 0 |}.

Definition clock0 : Clock :=
  {| stamps := fun _ => "2024-01-01T00:00:00"; ticks := 0 |}.

(** A process state with one content object of the annotated type
    [List[Dict[str, str]]]. *)
Definition world0 : World :=
  {| heap := {[ 1%positive := VList [VDict [("text", VStr "hi")]] ]};
     rng := zero_draws;
     clock := clock0 |}.

Definition msg0 : BaseMessage.t :=
  {| BaseMessage.sender := VStr "a";
     BaseMessage.receiver := VStr "b";
     BaseMessage.message_type := VStr "global_event";
     BaseMessage.content := 1%positive;
     BaseMessage.timestamp := "2024-01-01T00:00:00" |}.

(** A node over the topology constructed from [A; B; C] with edge
    probability 1, broadcasting with probability [prob]. *)
Definition node_abc (prob : Q) : Node.t :=
  Node.init (BaseNetwork.init ["A"; "B"; "C"] 1 "net" zero_draws).1 prob "node".

(** A node whose channel buffers [ms]. *)
Definition node_with (ms : list BaseMessage.t) : Node.t :=
  {| Node.base_network := net_ab;
     Node.broadcast := {| messages := ms; networks := [net_ab] |};
     Node.chain := {| blocks := [] |};
     Node.p := 1;
     Node.node_id := "node" |}.

(** Two content objects that are dicts: the first without an importance,
    the second with importance 0.9. *)
Definition world1 : World :=
  {| heap := {[ 1%positive := VDict [("text", VStr "hi")];
                2%positive := VDict [("text", VStr "ho");
                                     ("importance", VFloat (9 # 10))] ]};
     rng := zero_draws;
     clock := clock0 |}.

Definition msg1 : BaseMessage.t :=
  {| BaseMessage.sender := VStr "CentralNod";
     BaseMessage.receiver := VStr "a";
     BaseMessage.message_type := VStr "global_event";
     BaseMessage.content := 1%positive;
     BaseMessage.timestamp := "2024-01-01T00:00:00" |}.

Definition msg2 : BaseMessage.t :=
  {| BaseMessage.sender := VStr "CentralNod";
     BaseMessage.receiver := VStr "b";
     BaseMessage.message_type := VStr "global_event";
     BaseMessage.content := 2%positive;
     BaseMessage.timestamp := "2024-01-01T00:00:01" |}.

(** Three content objects with the importances 0.9, 0.4 and 0.6. *)
Definition world3 : World :=
  {| heap := {[ 1%positive := VDict [("importance", VFloat (9 # 10))];
                2%positive := VDict [("importance", VFloat (4 # 10))];
                3%positive := VDict [("importance", VFloat (6 # 10))] ]};
     rng := zero_draws;
     clock := clock0 |}.

(** A broadcast message whose content is the object at [l]. *)
Definition msg_at (l : loc) : BaseMessage.t :=
  {| BaseMessage.sender := VStr "CentralNod";
     BaseMessage.receiver := VStr "a";
     BaseMessage.message_type := VStr "global_event";
     BaseMessage.content := l;
     BaseMessage.timestamp := "2024-01-01T00:00:00" |}.

(** ** BaseNetwork.to_json

    The dict comprehension inserts one entry per node, under [str(node)],
    which is the node itself for a string; the value is the list of its
    successors. *)

Definition graph_dict (g : DiGraph.t) : list (string * pyval) :=
  foldl (fun acc node =>
           dict_set acc node (VList (VStr <$> DiGraph.successors g node)))
        [] (DiGraph.nodes g).

Definition BaseNetwork_to_json (n : BaseNetwork.t) : json :=
  json_dumps (VDict (graph_dict (BaseNetwork.graph n))).

(** ** Iterating over a value

    [for x in v]: a list gives its elements, a dict its keys, a string its
    characters; nothing else here can be iterated. *)

Definition py_iter (v : pyval) : result (list pyval) :=
  match v with
  | VList l => Ok l
  | VDict d => Ok (VStr <$> d.*1)
  | VStr s => Ok ((fun a => VStr (String a EmptyString)) <$> String.list_ascii_of_string s)
  | _ => Raise TypeError
  end.

(** ** BaseConversation *)

Module BaseConversation.

Record t := {
  conversation_id : pyval;
  messages : list BaseMessage.t;
  owner : string
}.

(** [__init__]; [owner_id] is a string, on which [str] is the identity. *)
Definition init (owner_id : string) (conversation_id : pyval)
    (messages : list BaseMessage.t) : t :=
  {| conversation_id := conversation_id;
     messages := messages;
     owner := owner_id |}.

(** The arguments of a call [BaseConversation(...)]; [None] is an argument
    the call does not give. *)
Record args := {
  a_owner_id : option string;
  a_conversation_id : option pyval;
  a_messages : option (list BaseMessage.t)
}.

(** A call of the class: none of the three parameters has a default. *)
Definition new (a : args) : result t :=
  match a_owner_id a, a_conversation_id a, a_messages a with
  | Some o, Some c, Some ms => Ok (init o c ms)
  | _, _, _ => Raise TypeError
  end.

Definition to_json (c : t) (w : World) : json :=
  json_dumps
    (VDict [("conversation_id", conversation_id c);
            ("messages",
             VList ((fun message => json_loads (BaseMessage.to_json message w))
                      <$> messages c))]).

Section Parsing.

(** [json.loads] on a string held in the data: the text it parses to, or
    [ValueError] (of which [JSONDecodeError] is a kind). *)
Variable json_parse : string -> result json.

(** [BaseMessage.from_json(message)] for one element of the data. *)
Definition message_from_json (message : pyval) : M World BaseMessage.t :=
  BaseMessage.from_json json_parse (inr message).

(** The list comprehension of [from_json]. *)
Fixpoint messages_from_json (items : list pyval)
    : M World (list BaseMessage.t) :=
  match items with
  | [] => ret []
  | message :: rest =>
      let* m := message_from_json message in
      let* ms := messages_from_json rest in
      ret (m :: ms)
  end.

(** [from_json]: the messages are read first, then the class is called
    with [conversation_id] and [messages]. *)
Definition from_json (json_str : json) : M World t :=
  let data := json_loads json_str in
  match py_getitem data "messages" with
  | Raise e => raise e
  | Ok field =>
  match py_iter field with
  | Raise e => raise e
  | Ok items =>
      let* ms := messages_from_json items in
      match py_getitem data "conversation_id" with
      | Raise e => raise e
      | Ok cid =>
          fun w => (new {| a_owner_id := None;
                           a_conversation_id := Some cid;
                           a_messages := Some ms |}, w)
      end
  end end.

End Parsing.

(** A method of a conversation runs on it and the process state. *)
Record state := { self : t; world : World }.

Definition in_world {A} (m : M World A) : M state A :=
  fun s => let '(r, w) := m (world s) in (r, {| self := self s; world := w |}).

(** [self.messages.append(message)] *)
Definition add_message (message : BaseMessage.t) : M state () :=
  fun s =>
    (Ok (),
     {| self := {| conversation_id := conversation_id (self s);
                   messages := messages (self s) ++ [message];
                   owner := owner (self s) |};
        world := world s |}).

Section Api.

(** [llm_call] of [utils/utils.py], which is not among the sources: from
    the prompt text to the reply, or an exception. *)
Variable llm_call : json -> result string.

(** [add_api_message]: the message is appended, the model is asked with
    the dumped content, and a reply that is not empty is appended as a
    message of its own. *)
Definition add_api_message (message : BaseMessage.t) : M state () :=
  let* _ := add_message message in
  fun s =>
    let api_prompt := json_dumps (load (world s) (BaseMessage.content message)) in
    match llm_call api_prompt with
    | Raise e => (Raise e, s)
    | Ok system_response =>
        if decide (system_response = "") then (Ok (), s)
        else
          (let* l := in_world (alloc (VList [VDict [("text", VStr system_response)]])) in
           let* system_message :=
             in_world (BaseMessage.new
               {| BaseMessage.a_sender := Some (VStr "system");
                  BaseMessage.a_receiver := Some (conversation_id (self s));
                  BaseMessage.a_message_type := Some (VStr "system_response");
                  BaseMessage.a_content := Some l;
                  BaseMessage.a_contribution_metric := None |}) in
           add_message system_message) s
    end.

End Api.

End BaseConversation.

(** ** The metric of an instance *)

(** The number [filter_by_metric] compares with the threshold, when the
    attribute is absent or holds a number. *)
Definition metric (m : instance) : option Q :=
  match getattr m "contribution_metric" (AVal (VInt 0)) with
  | AVal v => as_number v
  | ARef _ => None
  end.

(** ** Reading persisted data *)

(** What [data.get(key, [])] followed by the [None] test of
    [WorldState.__init__] leaves: the value under the key, and the empty
    list when the key is absent or holds [null]. *)
Definition field (d : list (string * pyval)) (key : string) : pyval :=
  or_default (default (VList []) (dict_get d key)) (VList []).

(** ** The draws of a loop *)

(** The draw a loop started in state [s] makes in its turn [k], counted
    from 0, when every turn draws once. *)
Definition draw_at (s : Node.state) (k : nat) : Q :=
  draws (rng (Node.world s)) (pos (rng (Node.world s)) + k).

(** ** The score of a buffered message *)

(** What the scorer [evaluate] returns on the content of [m] as it is in
    [w], when it returns. *)
Definition score (evaluate : pyval -> result Q) (w : World)
    (m : BaseMessage.t) : option Q :=
  match evaluate (load w (BaseMessage.content m)) with
  | Ok q => Some q
  | Raise _ => None
  end.

(** The content of [m] is a dict and the scorer returns on it. *)
Definition scorable (evaluate : pyval -> result Q) (w : World)
    (m : BaseMessage.t) : Prop :=
  (exists d, load w (BaseMessage.content m) = VDict d) /\
  is_Some (score evaluate w m).

(** The node [me] with [ms] appended to its history log. *)
Definition with_blocks (me : Node.t) (ms : list BaseMessage.t) : Node.t :=
  {| Node.base_network := Node.base_network me;
     Node.broadcast := Node.broadcast me;
     Node.chain := {| blocks := blocks (Node.chain me) ++ ms |};
     Node.p := Node.p me;
     Node.node_id := Node.node_id me |}.

(** A scorer that gives every content the importance 0.9. *)
Definition score_high (c : pyval) : result Q := Ok (9 # 10).

(** Two content objects that are dicts without an importance. *)
Definition world2 : World :=
  {| heap := {[ 1%positive := VDict [("text", VStr "hi")];
                2%positive := VDict [("text", VStr "ho")] ]};
     rng := zero_draws;
     clock := clock0 |}.

(** A dict without an importance and, behind it, a content of the
    annotated type [List[Dict[str, str]]]. *)
Definition world_mixed : World :=
  {| heap := {[ 1%positive := VDict [("text", VStr "hi")];
                2%positive := VList [VDict [("text", VStr "ho")]] ]};
     rng := zero_draws;
     clock := clock0 |}.

(** ** What a message is dumped as *)

(** The dict [BaseMessage.to_json] dumps. *)
Definition message_dict (w : World) (m : BaseMessage.t) : pyval :=
  VDict [("sender", BaseMessage.sender m); ("receiver", BaseMessage.receiver m);
         ("message_type", BaseMessage.message_type m);
         ("content", load w (BaseMessage.content m));
         ("timestamp", VStr (BaseMessage.timestamp m))].

(** The conversation [c] with [ms] appended to its messages. *)
Definition with_messages (c : BaseConversation.t) (ms : list BaseMessage.t)
    : BaseConversation.t :=
  {| BaseConversation.conversation_id := BaseConversation.conversation_id c;
     BaseConversation.messages := BaseConversation.messages c ++ ms;
     BaseConversation.owner := BaseConversation.owner c |}.

(** A conversation of owner ["ann"] that holds [msg0]. *)
Definition conv0 : BaseConversation.t :=
  BaseConversation.init "ann" (VStr "c1") [msg0].

(** A model that always replies ["ok"], one that replies nothing, one whose
    call fails. *)
Definition llm_ok (prompt : json) : result string := Ok "ok".
Definition llm_silent (prompt : json) : result string := Ok "".
Definition llm_down (prompt : json) : result string := Raise ValueError.

(** * Properties *)

(** ** Comparisons on floats *)

Lemma Qleb_le x y : Qleb x y = true <-> (x <= y)%Q.
Proof. apply Qle_bool_iff. Qed.

Lemma Qltb_lt x y : Qltb x y = true <-> (x < y)%Q.
Proof.
  unfold Qltb. rewrite negb_true_iff. split.
  - intros H. apply Qnot_le_lt. intros Hle.
    apply Qle_bool_iff in Hle. congruence.
  - intros H. destruct (Qle_bool y x) eqn:E; [|done].
    apply Qle_bool_iff in E. exfalso. by apply (Qlt_not_le x y).
Qed.

Lemma Qltb_false x y : Qltb x y = false <-> (y <= x)%Q.
Proof.
  unfold Qltb. rewrite negb_false_iff. apply Qle_bool_iff.
Qed.

(** ** The graph library *)

Section digraph.

Import DiGraph.

Implicit Types (g : DiGraph.t) (u v a b : string).

Lemma has_edge_true g u v : has_edge g u v = true <-> (u, v) ∈ edges g.
Proof. unfold has_edge. apply bool_decide_eq_true. Qed.

Lemma has_edge_false g u v : has_edge g u v = false <-> (u, v) ∉ edges g.
Proof. unfold has_edge. apply bool_decide_eq_false. Qed.

Lemma add_node_edges g u : edges (add_node g u) = edges g.
Proof. unfold add_node. by destruct (has_node g u). Qed.

Lemma add_node_nodes_elem g u x :
  x ∈ nodes (add_node g u) <-> x ∈ nodes g \/ x = u.
Proof.
  unfold add_node, has_node. case_bool_decide; simpl.
  - split; [auto | intros [?| ->]; done].
  - rewrite elem_of_app, list_elem_of_singleton. done.
Qed.

Lemma add_node_known g u : u ∈ nodes g -> add_node g u = g.
Proof.
  intros H. unfold add_node, has_node. by rewrite bool_decide_eq_true_2.
Qed.

Lemma add_node_NoDup g u : NoDup (nodes g) -> NoDup (nodes (add_node g u)).
Proof.
  intros H. unfold add_node, has_node. case_bool_decide; simpl; [done|].
  apply NoDup_app. split_and!; [done | | apply NoDup_singleton].
  intros x Hx ->%list_elem_of_singleton. done.
Qed.

Lemma add_nodes_from_edges g ns : edges (add_nodes_from g ns) = edges g.
Proof.
  unfold add_nodes_from. revert g.
  induction ns as [|n ns IH]; intros g; simpl; [done|].
  by rewrite IH, add_node_edges.
Qed.

Lemma add_nodes_from_elem g ns x :
  x ∈ nodes (add_nodes_from g ns) <-> x ∈ nodes g \/ x ∈ ns.
Proof.
  unfold add_nodes_from. revert g.
  induction ns as [|n ns IH]; intros g; simpl.
  - rewrite elem_of_nil. tauto.
  - rewrite IH, add_node_nodes_elem, elem_of_cons. split; intros; intuition (subst; auto).
Qed.

Lemma add_nodes_from_NoDup g ns :
  NoDup (nodes g) -> NoDup (nodes (add_nodes_from g ns)).
Proof.
  unfold add_nodes_from. revert g.
  induction ns as [|n ns IH]; intros g H; simpl; [done|].
  by apply IH, add_node_NoDup.
Qed.

(** Without repetition in the list, the nodes are the list itself. *)
Lemma add_nodes_from_fresh g ns :
  NoDup ns -> (forall x, x ∈ ns -> x ∉ nodes g) ->
  nodes (add_nodes_from g ns) = nodes g ++ ns.
Proof.
  unfold add_nodes_from. revert g.
  induction ns as [|n ns IH]; intros g Hnd Hfresh; simpl.
  - by rewrite app_nil_r.
  - apply NoDup_cons in Hnd as [Hn Hnd].
    assert (add_node g n = mk (nodes g ++ [n]) (edges g)) as ->.
    { unfold add_node, has_node. rewrite bool_decide_eq_false_2; [done|].
      apply Hfresh. left. }
    rewrite IH; simpl; [by rewrite <- app_assoc | done |].
    intros x Hx. rewrite elem_of_app, list_elem_of_singleton.
    intros [Hg | ->]; [|done].
    by apply (Hfresh x); [right|].
Qed.

Lemma add_edge_edges_elem g u v a b :
  (a, b) ∈ edges (add_edge g u v) <-> (a, b) ∈ edges g \/ (a, b) = (u, v).
Proof.
  unfold add_edge. destruct (has_edge _ u v) eqn:E; simpl.
  - rewrite !add_node_edges. apply has_edge_true in E.
    rewrite !add_node_edges in E. split; [auto | intros [?| [= -> ->]]; done].
  - rewrite !add_node_edges, elem_of_app, list_elem_of_singleton. done.
Qed.

Lemma add_edge_has_edge g u v a b :
  has_edge (add_edge g u v) a b = true <->
  has_edge g a b = true \/ (a = u /\ b = v).
Proof. rewrite !has_edge_true, add_edge_edges_elem. split; intros [?|H]; auto; right; [by injection H | by destruct H as [-> ->]]. Qed.

Lemma add_edge_nodes_elem g u v x :
  x ∈ nodes (add_edge g u v) <-> x ∈ nodes g \/ x = u \/ x = v.
Proof.
  unfold add_edge. destruct (has_edge _ u v); simpl;
    rewrite !add_node_nodes_elem; tauto.
Qed.

(** [add_edge] between two nodes leaves the node set as it is. *)
Lemma add_edge_nodes_known g u v :
  u ∈ nodes g -> v ∈ nodes g -> nodes (add_edge g u v) = nodes g.
Proof.
  intros Hu Hv. unfold add_edge.
  rewrite (add_node_known g u Hu), (add_node_known g v Hv).
  by destruct (has_edge g u v).
Qed.

Lemma remove_edge_Ok g u v :
  has_edge g u v = true ->
  remove_edge g u v =
    Ok (mk (nodes g) (filter (fun e => e ≠ (u, v)) (edges g))).
Proof. intros H. unfold remove_edge. by rewrite H. Qed.

Lemma remove_edge_Raise g u v :
  has_edge g u v = false -> remove_edge g u v = Raise NetworkXError.
Proof. intros H. unfold remove_edge. by rewrite H. Qed.

Lemma remove_edge_inv g u v g' :
  remove_edge g u v = Ok g' ->
  has_edge g u v = true /\ nodes g' = nodes g /\
  forall a b, (a, b) ∈ edges g' <-> (a, b) ∈ edges g /\ (a, b) ≠ (u, v).
Proof.
  unfold remove_edge. destruct (has_edge g u v) eqn:E; [|done].
  intros [= <-]. split_and!; [done..|].
  intros a b. simpl. rewrite list_elem_of_filter. tauto.
Qed.

Lemma graph_wf_empty : graph_wf empty.
Proof.
  split_and!; simpl; [apply NoDup_nil_2..|].
  intros a b H. by apply elem_of_nil in H.
Qed.

Lemma graph_wf_add_node g u : graph_wf g -> graph_wf (add_node g u).
Proof.
  intros (Hn & He & Hin). split_and!.
  - by apply add_node_NoDup.
  - by rewrite add_node_edges.
  - intros a b. rewrite add_node_edges, !add_node_nodes_elem.
    intros H. destruct (Hin a b H). auto.
Qed.

Lemma graph_wf_add_nodes_from g ns :
  graph_wf g -> graph_wf (add_nodes_from g ns).
Proof.
  unfold add_nodes_from. revert g.
  induction ns as [|n ns IH]; intros g H; simpl; [done|].
  by apply IH, graph_wf_add_node.
Qed.

Lemma graph_wf_add_edge g u v : graph_wf g -> graph_wf (add_edge g u v).
Proof.
  intros H.
  assert (graph_wf (add_node (add_node g u) v)) as (Hn & He & Hin)
    by by do 2 apply graph_wf_add_node.
  unfold add_edge. destruct (has_edge _ u v) eqn:E; [done|].
  apply has_edge_false in E. split_and!; simpl.
  - done.
  - apply NoDup_app. split_and!; [done | | apply NoDup_singleton].
    intros x Hx ->%list_elem_of_singleton. done.
  - intros a b. rewrite elem_of_app, list_elem_of_singleton.
    intros [Hab | [= -> ->]]; [by apply Hin|].
    rewrite !add_node_nodes_elem. auto.
Qed.

Lemma graph_wf_remove_edge g u v g' :
  graph_wf g -> remove_edge g u v = Ok g' -> graph_wf g'.
Proof.
  intros (Hn & He & Hin). unfold remove_edge.
  destruct (has_edge g u v); [|done].
  intros [= <-]. split_and!; simpl.
  - done.
  - by apply list.NoDup_filter.
  - intros a b [_ H]%list_elem_of_filter. by apply Hin.
Qed.

End digraph.

(** ** The topology invariant *)

Section invariant.

Import DiGraph BaseNetwork.

Implicit Types (g : DiGraph.t) (n : BaseNetwork.t) (u v a b : string).

Lemma no_bidirectional_add_edge g u v :
  no_bidirectional g -> u = v \/ has_edge g v u = false ->
  no_bidirectional (add_edge g u v).
Proof.
  intros Hinv Hrev a b Hab [H1 H2].
  apply add_edge_has_edge in H1, H2.
  destruct H1 as [H1 | [-> ->]], H2 as [H2 | [E1 E2]].
  - by apply (Hinv a b).
  - subst. destruct Hrev as [-> | Hrev]; congruence.
  - destruct Hrev as [-> | Hrev]; congruence.
  - congruence.
Qed.

Lemma no_bidirectional_remove_edge g u v g' :
  remove_edge g u v = Ok g' -> no_bidirectional g -> no_bidirectional g'.
Proof.
  intros (_ & _ & Hedges)%remove_edge_inv Hinv a b Hab [H1 H2].
  apply has_edge_true, Hedges in H1 as [H1 _].
  apply has_edge_true, Hedges in H2 as [H2 _].
  apply (Hinv a b Hab). by rewrite !has_edge_true.
Qed.

Lemma remove_edge_gone g u v g' :
  remove_edge g u v = Ok g' -> has_edge g' u v = false.
Proof.
  intros (_ & _ & Hedges)%remove_edge_inv.
  apply has_edge_false. rewrite Hedges. tauto.
Qed.

Lemma no_bidirectional_generate_pairs prob pairs g r :
  no_bidirectional g -> no_bidirectional (generate_pairs prob pairs g r).1.
Proof.
  revert g r. induction pairs as [|[s e] rest IH]; intros g r Hinv; simpl.
  - done.
  - destruct (has_edge g e s) eqn:E; [by apply IH|].
    destruct (Qleb (draws r (pos r)) prob); apply IH; [|done].
    apply no_bidirectional_add_edge; auto.
Qed.

Lemma no_bidirectional_no_edges g : edges g = [] -> no_bidirectional g.
Proof.
  intros Hnil a b _ [H _]. apply has_edge_true in H.
  rewrite Hnil in H. by apply elem_of_nil in H.
Qed.

Lemma init_graph ids prob fresh_uuid r :
  graph (init ids prob fresh_uuid r).1 =
  (generate_pairs prob (permutations2 ids)
     (add_nodes_from empty ids) r).1.
Proof.
  unfold init, generate_random_digraph. simpl.
  by destruct (generate_pairs _ _ _ _).
Qed.

Lemma no_bidirectional_init ids prob fresh_uuid r :
  no_bidirectional (graph (init ids prob fresh_uuid r).1).
Proof.
  rewrite init_graph. apply no_bidirectional_generate_pairs.
  apply no_bidirectional_no_edges. by rewrite add_nodes_from_edges.
Qed.

Lemma no_bidirectional_disconnect_edge n a b :
  no_bidirectional (graph n) ->
  no_bidirectional (graph (disconnect_edge a b n).2).
Proof.
  intros Hinv. unfold disconnect_edge.
  destruct (has_edge (graph n) a b); [|done].
  destruct (remove_edge (graph n) a b) eqn:E; [|done].
  simpl. by eapply no_bidirectional_remove_edge.
Qed.

Lemma no_bidirectional_reverse_edge n a b :
  no_bidirectional (graph n) ->
  no_bidirectional (graph (reverse_edge a b n).2).
Proof.
  intros Hinv. unfold reverse_edge.
  destruct (remove_edge (graph n) a b) as [g'|] eqn:E; [|done].
  simpl. apply no_bidirectional_add_edge.
  - by eapply no_bidirectional_remove_edge.
  - right. by eapply remove_edge_gone.
Qed.

Lemma no_bidirectional_connect_edge n a b :
  no_bidirectional (graph n) ->
  a = b \/ has_edge (graph n) b a = false ->
  no_bidirectional (graph (connect_edge a b n).2).
Proof.
  intros Hinv Hrev. unfold connect_edge.
  destruct (has_edge (graph n) a b); simpl; [done|].
  by apply no_bidirectional_add_edge.
Qed.

End invariant.

Lemma no_bidirectional_net_ab : no_bidirectional (BaseNetwork.graph net_ab).
Proof.
  intros a b Hab [H1 H2].
  apply has_edge_true in H1, H2. simpl in H1, H2.
  apply list_elem_of_singleton in H1, H2. congruence.
Qed.

(** C1, as amended.  No pair of distinct agents is joined in both directions
    after construction, whatever the probability and the draws; the
    invariant is kept by [disconnect_edge] and by [reverse_edge] for all
    arguments, and by [connect_edge start end] when the edge [end -> start]
    is absent (or [start = end]). *)
Theorem no_bidirectional_maintained :
  (forall ids prob fresh_uuid r,
     no_bidirectional (BaseNetwork.graph (BaseNetwork.init ids prob fresh_uuid r).1)) /\
  (forall n a b,
     no_bidirectional (BaseNetwork.graph n) ->
     no_bidirectional (BaseNetwork.graph (BaseNetwork.disconnect_edge a b n).2) /\
     no_bidirectional (BaseNetwork.graph (BaseNetwork.reverse_edge a b n).2) /\
     (a = b \/ DiGraph.has_edge (BaseNetwork.graph n) b a = false ->
      no_bidirectional (BaseNetwork.graph (BaseNetwork.connect_edge a b n).2))).
Proof.
  split.
  - apply no_bidirectional_init.
  - intros n a b Hinv. split_and!.
    + by apply no_bidirectional_disconnect_edge.
    + by apply no_bidirectional_reverse_edge.
    + by apply no_bidirectional_connect_edge.
Qed.

Lemma no_bidirectional_maintained_witness :
  no_bidirectional (BaseNetwork.graph net_ab) /\
  no_bidirectional (BaseNetwork.graph (BaseNetwork.disconnect_edge "a" "b" net_ab).2) /\
  no_bidirectional (BaseNetwork.graph (BaseNetwork.reverse_edge "a" "b" net_ab).2) /\
  no_bidirectional (BaseNetwork.graph (BaseNetwork.connect_edge "a" "a" net_ab).2).
Proof.
  split; [exact no_bidirectional_net_ab|].
  destruct (proj2 no_bidirectional_maintained net_ab "a" "a"
              no_bidirectional_net_ab) as (_ & _ & Hc).
  destruct (proj2 no_bidirectional_maintained net_ab "a" "b"
              no_bidirectional_net_ab) as (Hd & Hr & _).
  split_and!; [exact Hd | exact Hr | apply Hc; by left].
Defined.

(** C1, as stated, fails for [connect_edge]: the network with the single
    edge [a -> b] satisfies the invariant, and [connect_edge("b", "a")]
    leaves both [a -> b] and [b -> a] in it. *)
Lemma connect_edge_breaks_invariant :
  no_bidirectional (BaseNetwork.graph net_ab) /\
  ¬ no_bidirectional
      (BaseNetwork.graph (BaseNetwork.connect_edge "b" "a" net_ab).2).
Proof.
  split; [exact no_bidirectional_net_ab|].
  intros H. apply (H "a" "b"); [done|]. by vm_compute.
Qed.

(** ** Reversing an edge *)

Section mutations.

Import DiGraph BaseNetwork.

Implicit Types (g : DiGraph.t) (n : BaseNetwork.t) (u v a b : string).

Lemma reverse_edge_present n a b :
  has_edge (graph n) a b = true ->
  (reverse_edge a b n).1 = Ok VNone /\
  has_edge (graph (reverse_edge a b n).2) b a = true /\
  (a ≠ b -> has_edge (graph (reverse_edge a b n).2) a b = false).
Proof.
  intros H. unfold reverse_edge. rewrite (remove_edge_Ok _ _ _ H). simpl.
  split_and!; [done | |].
  - apply add_edge_has_edge. by right.
  - intros Hab. destruct (has_edge (add_edge _ b a) a b) eqn:E; [|done].
    apply add_edge_has_edge in E as [E | [-> _]]; [|done].
    apply has_edge_true in E. simpl in E.
    apply list_elem_of_filter in E as [E _]. done.
Qed.

Lemma reverse_edge_absent n a b :
  has_edge (graph n) a b = false ->
  reverse_edge a b n = (Raise NetworkXError, n).
Proof.
  intros H. unfold reverse_edge. by rewrite (remove_edge_Raise _ _ _ H).
Qed.

(** *** The node set *)

Lemma permutations2_elem {A} (xs : list A) x y :
  (x, y) ∈ permutations2 xs -> x ∈ xs /\ y ∈ xs.
Proof.
  unfold permutations2. intros (row & Hrow & Hin)%list_elem_of_join.
  apply elem_of_lookup_imap in Hin as (i & x' & -> & Hx).
  apply list_elem_of_join in Hrow as (cell & Hcell & Hin).
  apply elem_of_lookup_imap in Hin as (j & y' & -> & Hy).
  case_decide; [by apply elem_of_nil in Hcell|].
  apply list_elem_of_singleton in Hcell as [= -> ->].
  split; by eapply list_elem_of_lookup_2.
Qed.

Lemma generate_pairs_nodes prob pairs g r :
  (forall a b, (a, b) ∈ pairs -> a ∈ nodes g /\ b ∈ nodes g) ->
  nodes (generate_pairs prob pairs g r).1 = nodes g.
Proof.
  revert g r. induction pairs as [|[s e] rest IH]; intros g r Hin; simpl.
  - done.
  - assert (forall a b, (a, b) ∈ rest -> a ∈ nodes g /\ b ∈ nodes g) as Hrest
      by (intros a b H; apply Hin; by right).
    destruct (Hin s e) as [Hs He]; [left|].
    destruct (has_edge g e s); [by apply IH|].
    destruct (Qleb (draws r (pos r)) prob); [|by apply IH].
    rewrite IH; rewrite add_edge_nodes_known; done.
Qed.

Lemma graph_wf_generate_pairs prob pairs g r :
  graph_wf g -> graph_wf (generate_pairs prob pairs g r).1.
Proof.
  revert g r. induction pairs as [|[s e] rest IH]; intros g r Hwf; simpl.
  - done.
  - destruct (has_edge g e s); [by apply IH|].
    destruct (Qleb (draws r (pos r)) prob); apply IH; [|done].
    by apply graph_wf_add_edge.
Qed.

Lemma init_nodes ids prob fresh_uuid r :
  nodes (graph (init ids prob fresh_uuid r).1) =
  nodes (add_nodes_from empty ids).
Proof.
  rewrite init_graph. apply generate_pairs_nodes.
  intros a b [Ha Hb]%permutations2_elem.
  rewrite !add_nodes_from_elem. auto.
Qed.

Lemma init_nodes_elem ids prob fresh_uuid r x :
  x ∈ nodes (graph (init ids prob fresh_uuid r).1) <-> x ∈ ids.
Proof.
  rewrite init_nodes, add_nodes_from_elem. simpl.
  rewrite elem_of_nil. tauto.
Qed.

Lemma init_nodes_NoDup ids prob fresh_uuid r :
  NoDup ids -> nodes (graph (init ids prob fresh_uuid r).1) = ids.
Proof.
  intros H. rewrite init_nodes, add_nodes_from_fresh; [done..|].
  intros x _ Hx. by apply elem_of_nil in Hx.
Qed.

Lemma graph_wf_init ids prob fresh_uuid r :
  graph_wf (graph (init ids prob fresh_uuid r).1).
Proof.
  rewrite init_graph.
  apply graph_wf_generate_pairs, graph_wf_add_nodes_from, graph_wf_empty.
Qed.

Lemma disconnect_edge_nodes n a b :
  nodes (graph (disconnect_edge a b n).2) = nodes (graph n).
Proof.
  unfold disconnect_edge, remove_edge.
  by destruct (has_edge (graph n) a b).
Qed.

Lemma reverse_edge_nodes n a b :
  graph_wf (graph n) ->
  nodes (graph (reverse_edge a b n).2) = nodes (graph n).
Proof.
  intros (_ & _ & Hin). unfold reverse_edge, remove_edge.
  destruct (has_edge (graph n) a b) eqn:E; [|done]. simpl.
  apply has_edge_true, Hin in E as [Ha Hb].
  by rewrite add_edge_nodes_known.
Qed.

Lemma connect_edge_nodes n a b :
  a ∈ nodes (graph n) -> b ∈ nodes (graph n) ->
  nodes (graph (connect_edge a b n).2) = nodes (graph n).
Proof.
  intros Ha Hb. unfold connect_edge.
  destruct (has_edge (graph n) a b); simpl; [done|].
  by apply add_edge_nodes_known.
Qed.

(** What [execute] leaves behind, branch by branch. *)
Lemma execute_state n a b method action :
  (execute a b method action n).2 =
  if method a b action then
    if decide (action = "reverse") then (reverse_edge a b n).2
    else if decide (action = "disconnect") then (disconnect_edge a b n).2
    else if decide (action = "connect") then (connect_edge a b n).2
    else n
  else n.
Proof.
  unfold execute. destruct (method a b action); [|done].
  repeat case_decide; try done.
  - unfold bind, disconnect_edge, remove_edge.
    by destruct (has_edge (graph n) a b).
  - unfold bind, connect_edge.
    by destruct (has_edge (graph n) a b).
Qed.

Lemma execute_nodes n a b method action :
  graph_wf (graph n) ->
  (action = "connect" -> method a b action = true ->
   a ∈ nodes (graph n) /\ b ∈ nodes (graph n)) ->
  nodes (graph (execute a b method action n).2) = nodes (graph n).
Proof.
  intros Hwf Hknown. rewrite execute_state.
  destruct (method a b action); [|done].
  repeat case_decide; try done.
  - by apply reverse_edge_nodes.
  - apply disconnect_edge_nodes.
  - destruct Hknown; [done..|]. by apply connect_edge_nodes.
Qed.

Lemma graph_wf_disconnect_edge n a b :
  graph_wf (graph n) -> graph_wf (graph (disconnect_edge a b n).2).
Proof.
  intros Hwf. unfold disconnect_edge.
  destruct (has_edge (graph n) a b); [|done].
  destruct (remove_edge (graph n) a b) eqn:E; [|done].
  simpl. by eapply graph_wf_remove_edge.
Qed.

Lemma graph_wf_connect_edge n a b :
  graph_wf (graph n) -> graph_wf (graph (connect_edge a b n).2).
Proof.
  intros Hwf. unfold connect_edge.
  destruct (has_edge (graph n) a b); simpl; [done|].
  by apply graph_wf_add_edge.
Qed.

Lemma graph_wf_reverse_edge n a b :
  graph_wf (graph n) -> graph_wf (graph (reverse_edge a b n).2).
Proof.
  intros Hwf. unfold reverse_edge.
  destruct (remove_edge (graph n) a b) eqn:E; [|done].
  simpl. apply graph_wf_add_edge. by eapply graph_wf_remove_edge.
Qed.

Lemma graph_wf_execute n a b method action :
  graph_wf (graph n) -> graph_wf (graph (execute a b method action n).2).
Proof.
  intros Hwf. rewrite execute_state.
  destruct (method a b action); [|done].
  repeat case_decide; try done.
  - by apply graph_wf_reverse_edge.
  - by apply graph_wf_disconnect_edge.
  - by apply graph_wf_connect_edge.
Qed.

End mutations.

Lemma graph_wf_net_ab : graph_wf (BaseNetwork.graph net_ab).
Proof.
  split_and!; simpl.
  - apply NoDup_cons. split; [|apply NoDup_singleton].
    by intros [=]%list_elem_of_singleton.
  - apply NoDup_singleton.
  - intros a b [= -> ->]%list_elem_of_singleton.
    split; [left | right; left].
Qed.

(** C6, as amended.  For two distinct agents [a] and [b]: when [a -> b] is
    present, [reverse_edge(a, b)] returns and leaves [b -> a] present and
    [a -> b] absent; when [a -> b] is absent, for any [a] and [b],
    [reverse_edge(a, b)] raises and leaves the topology as it was. *)
Theorem reverse_edge_spec n a b :
  (DiGraph.has_edge (BaseNetwork.graph n) a b = true -> a ≠ b ->
   (BaseNetwork.reverse_edge a b n).1 = Ok VNone /\
   DiGraph.has_edge (BaseNetwork.graph (BaseNetwork.reverse_edge a b n).2) b a = true /\
   DiGraph.has_edge (BaseNetwork.graph (BaseNetwork.reverse_edge a b n).2) a b = false) /\
  (DiGraph.has_edge (BaseNetwork.graph n) a b = false ->
   BaseNetwork.reverse_edge a b n = (Raise NetworkXError, n)).
Proof.
  split.
  - intros H Hab. destruct (reverse_edge_present n a b H) as (H1 & H2 & H3).
    auto.
  - apply reverse_edge_absent.
Qed.

Lemma reverse_edge_spec_witness :
  ((BaseNetwork.reverse_edge "a" "b" net_ab).1 = Ok VNone /\
   DiGraph.has_edge
     (BaseNetwork.graph (BaseNetwork.reverse_edge "a" "b" net_ab).2) "b" "a" = true /\
   DiGraph.has_edge
     (BaseNetwork.graph (BaseNetwork.reverse_edge "a" "b" net_ab).2) "a" "b" = false) /\
  BaseNetwork.reverse_edge "b" "a" net_ab = (Raise NetworkXError, net_ab).
Proof.
  split.
  - apply (proj1 (reverse_edge_spec net_ab "a" "b")); [reflexivity | discriminate].
  - apply (proj2 (reverse_edge_spec net_ab "b" "a")). reflexivity.
Defined.

(** C6, as stated for every pair, fails on a pair [(a, a)]: with the edge
    [a -> a] present, [reverse_edge("a", "a")] returns and the edge is
    still present afterwards. *)
Lemma reverse_edge_self_loop_stays :
  DiGraph.has_edge (BaseNetwork.graph net_loop) "a" "a" = true /\
  (BaseNetwork.reverse_edge "a" "a" net_loop).1 = Ok VNone /\
  DiGraph.has_edge
    (BaseNetwork.graph (BaseNetwork.reverse_edge "a" "a" net_loop).2) "a" "a" ≠ false.
Proof. by vm_compute. Qed.

(** C8, as amended.  The node set of a constructed topology has exactly the
    agent ids as members (and is the list itself when no id is repeated).
    On a topology whose edges join nodes, [disconnect_edge] and
    [reverse_edge] leave the node set unchanged for all arguments;
    [connect_edge], and [execute] with action [connect] and an agreeing
    predicate, leave it unchanged when both end points are nodes; and every
    operation keeps the edges joining nodes. *)
Theorem node_set_fixed :
  (forall ids prob fresh_uuid r,
     let g := BaseNetwork.graph (BaseNetwork.init ids prob fresh_uuid r).1 in
     (forall x, x ∈ DiGraph.nodes g <-> x ∈ ids) /\
     (NoDup ids -> DiGraph.nodes g = ids) /\
     graph_wf g) /\
  (forall n a b method action,
     graph_wf (BaseNetwork.graph n) ->
     let nodes_after (op : M BaseNetwork.t pyval) :=
       DiGraph.nodes (BaseNetwork.graph (op n).2) in
     let wf_after (op : M BaseNetwork.t pyval) :=
       graph_wf (BaseNetwork.graph (op n).2) in
     let known :=
       a ∈ DiGraph.nodes (BaseNetwork.graph n) /\
       b ∈ DiGraph.nodes (BaseNetwork.graph n) in
     nodes_after (BaseNetwork.disconnect_edge a b) = DiGraph.nodes (BaseNetwork.graph n) /\
     nodes_after (BaseNetwork.reverse_edge a b) = DiGraph.nodes (BaseNetwork.graph n) /\
     (known ->
      nodes_after (BaseNetwork.connect_edge a b) = DiGraph.nodes (BaseNetwork.graph n)) /\
     ((action = "connect" -> method a b action = true -> known) ->
      nodes_after (BaseNetwork.execute a b method action) =
        DiGraph.nodes (BaseNetwork.graph n)) /\
     wf_after (BaseNetwork.disconnect_edge a b) /\
     wf_after (BaseNetwork.reverse_edge a b) /\
     wf_after (BaseNetwork.connect_edge a b) /\
     wf_after (BaseNetwork.execute a b method action)).
Proof.
  split.
  - intros ids prob fresh_uuid r. simpl. split_and!.
    + intros x. apply init_nodes_elem.
    + apply init_nodes_NoDup.
    + apply graph_wf_init.
  - intros n a b method action Hwf. simpl. split_and!.
    + apply disconnect_edge_nodes.
    + by apply reverse_edge_nodes.
    + intros [Ha Hb]. by apply connect_edge_nodes.
    + intros Hknown. by apply execute_nodes.
    + by apply graph_wf_disconnect_edge.
    + by apply graph_wf_reverse_edge.
    + by apply graph_wf_connect_edge.
    + by apply graph_wf_execute.
Qed.

Lemma node_set_fixed_witness :
  DiGraph.nodes (BaseNetwork.graph
    (BaseNetwork.init ["a"; "b"] 1 "u" zero_draws).1) = ["a"; "b"] /\
  DiGraph.nodes (BaseNetwork.graph (BaseNetwork.reverse_edge "a" "b" net_ab).2)
    = ["a"; "b"] /\
  DiGraph.nodes (BaseNetwork.graph (BaseNetwork.connect_edge "b" "a" net_ab).2)
    = ["a"; "b"] /\
  DiGraph.nodes (BaseNetwork.graph
    (BaseNetwork.execute "b" "a" (fun _ _ _ => true) "connect" net_ab).2)
    = ["a"; "b"].
Proof.
  destruct node_set_fixed as [Hinit Hops].
  destruct (Hinit ["a"; "b"] 1%Q "u" zero_draws) as (_ & Hids & _).
  destruct (Hops net_ab "a" "b" (fun _ _ _ : string => true) "connect"
              graph_wf_net_ab) as (_ & Hrev & _).
  destruct (Hops net_ab "b" "a" (fun _ _ _ : string => true) "connect"
              graph_wf_net_ab) as (_ & _ & Hcon & Hexe & _).
  assert ("b" ∈ ["a"; "b"] /\ "a" ∈ ["a"; "b"]) as Hknown
    by (split; [right; left | left]).
  split_and!.
  - apply Hids. apply NoDup_cons. split; [|apply NoDup_singleton].
    by intros [=]%list_elem_of_singleton.
  - exact Hrev.
  - apply Hcon. exact Hknown.
  - apply Hexe. intros _ _. exact Hknown.
Defined.

(** C8, as stated for identifiers outside the agent set, fails: on the
    topology constructed over [a] and [b], [connect_edge("a", "c")] makes
    [c] a node. *)
Lemma connect_edge_adds_node :
  let n := (BaseNetwork.init ["a"; "b"] 1 "u" zero_draws).1 in
  DiGraph.nodes (BaseNetwork.graph n) = ["a"; "b"] /\
  DiGraph.nodes (BaseNetwork.graph (BaseNetwork.connect_edge "a" "c" n).2)
    = ["a"; "b"; "c"] /\
  DiGraph.nodes (BaseNetwork.graph
    (BaseNetwork.execute "a" "c" (fun _ _ _ => true) "connect" n).2)
    = ["a"; "b"; "c"].
Proof. by vm_compute. Qed.

(** ** The gated mutation *)

Lemma execute_declined n start end_ method action :
  method start end_ action = false ->
  BaseNetwork.execute start end_ method action n = (Ok (VBool false), n).
Proof. intros H. unfold BaseNetwork.execute. by rewrite H. Qed.

Lemma execute_all_declined n calls :
  execute_all (fun _ _ _ => false) calls n =
  (Ok (map (fun _ => VBool false) calls), n).
Proof.
  induction calls as [|[[s e] action] rest IH]; simpl; [done|].
  unfold bind. rewrite execute_declined by done. by rewrite IH.
Qed.

Lemma execute_disconnect n start end_ method :
  method start end_ "disconnect" = true ->
  BaseNetwork.execute start end_ method "disconnect" n =
  (Ok (VBool true), (BaseNetwork.disconnect_edge start end_ n).2).
Proof.
  intros H. unfold BaseNetwork.execute. rewrite H. simpl.
  unfold bind, BaseNetwork.disconnect_edge, DiGraph.remove_edge.
  by destruct (DiGraph.has_edge _ start end_).
Qed.

Lemma execute_connect n start end_ method :
  method start end_ "connect" = true ->
  BaseNetwork.execute start end_ method "connect" n =
  (Ok (VBool true), (BaseNetwork.connect_edge start end_ n).2).
Proof.
  intros H. unfold BaseNetwork.execute. rewrite H. simpl.
  unfold bind, BaseNetwork.connect_edge.
  by destruct (DiGraph.has_edge _ start end_).
Qed.

Lemma execute_unknown n start end_ method action :
  method start end_ action = true ->
  action ≠ "reverse" -> action ≠ "disconnect" -> action ≠ "connect" ->
  BaseNetwork.execute start end_ method action n = (Raise ValueError, n).
Proof.
  intros H ???. unfold BaseNetwork.execute. rewrite H.
  by repeat case_decide.
Qed.

(** C4, as amended.  When the predicate declines, [execute] returns [False]
    and leaves the topology unchanged, whatever the action name.  When the
    predicate agrees: [disconnect] and [connect] apply the mutation and
    return [True]; [reverse] leaves the topology as [reverse_edge] leaves
    it; any other action name raises [ValueError] with the topology
    unchanged.  With an always-false predicate every sequence of [execute]
    calls returns [False] each time and leaves the topology unchanged. *)
Theorem execute_gated n start end_ method action :
  (method start end_ action = false ->
   BaseNetwork.execute start end_ method action n = (Ok (VBool false), n)) /\
  (method start end_ action = true ->
   (action = "disconnect" ->
    BaseNetwork.execute start end_ method action n =
    (Ok (VBool true), (BaseNetwork.disconnect_edge start end_ n).2)) /\
   (action = "connect" ->
    BaseNetwork.execute start end_ method action n =
    (Ok (VBool true), (BaseNetwork.connect_edge start end_ n).2)) /\
   (action = "reverse" ->
    (BaseNetwork.execute start end_ method action n).2 =
    (BaseNetwork.reverse_edge start end_ n).2) /\
   (action ≠ "reverse" -> action ≠ "disconnect" -> action ≠ "connect" ->
    BaseNetwork.execute start end_ method action n = (Raise ValueError, n))) /\
  (forall calls,
     execute_all (fun _ _ _ => false) calls n =
     (Ok (map (fun _ => VBool false) calls), n)).
Proof.
  split_and!.
  - apply execute_declined.
  - intros H. split_and!.
    + intros ->. by apply execute_disconnect.
    + intros ->. by apply execute_connect.
    + intros ->. rewrite execute_state, H. done.
    + by apply execute_unknown.
  - apply execute_all_declined.
Qed.

Lemma execute_gated_witness :
  BaseNetwork.execute "a" "b" (fun _ _ a => bool_decide (a ≠ "reverse")) "reverse" net_ab
    = (Ok (VBool false), net_ab) /\
  BaseNetwork.execute "a" "b" (fun _ _ _ => true) "disconnect" net_ab
    = (Ok (VBool true), (BaseNetwork.disconnect_edge "a" "b" net_ab).2) /\
  BaseNetwork.execute "b" "a" (fun _ _ _ => true) "connect" net_ab
    = (Ok (VBool true), (BaseNetwork.connect_edge "b" "a" net_ab).2) /\
  (BaseNetwork.execute "a" "b" (fun _ _ _ => true) "reverse" net_ab).2
    = (BaseNetwork.reverse_edge "a" "b" net_ab).2 /\
  BaseNetwork.execute "a" "b" (fun _ _ _ => true) "merge" net_ab
    = (Raise ValueError, net_ab).
Proof.
  split_and!.
  - apply (proj1 (execute_gated net_ab "a" "b"
             (fun _ _ a => bool_decide (a ≠ "reverse")) "reverse")).
    reflexivity.
  - apply (proj1 (proj1 (proj2 (execute_gated net_ab "a" "b"
             (fun _ _ _ => true) "disconnect")) eq_refl)).
    reflexivity.
  - apply (proj1 (proj2 (proj1 (proj2 (execute_gated net_ab "b" "a"
             (fun _ _ _ => true) "connect")) eq_refl))).
    reflexivity.
  - apply (proj1 (proj2 (proj2 (proj1 (proj2 (execute_gated net_ab "a" "b"
             (fun _ _ _ => true) "reverse")) eq_refl)))).
    reflexivity.
  - apply (proj2 (proj2 (proj2 (proj1 (proj2 (execute_gated net_ab "a" "b"
             (fun _ _ _ => true) "merge")) eq_refl)))); discriminate.
Defined.

(** C4, as stated, fails on an action name outside the three when the
    predicate declines: [execute] returns [False] and signals no error. *)
Lemma execute_unknown_action_declined :
  BaseNetwork.execute "a" "b" (fun _ _ _ => false) "merge" net_ab
    = (Ok (VBool false), net_ab) /\
  forall e, (BaseNetwork.execute "a" "b" (fun _ _ _ => false) "merge" net_ab).1
            ≠ Raise e.
Proof. split; [reflexivity | discriminate]. Qed.

(** The [reverse] branch of [execute] hands back what [reverse_edge]
    returns, which is [None], where the other two branches return [True]. *)
Example execute_reverse_returns_None :
  BaseNetwork.execute "a" "b" (fun _ _ _ => true) "reverse" net_ab =
  (Ok VNone,
   BaseNetwork.with_graph net_ab (DiGraph.mk ["a"; "b"] [("b", "a")])).
Proof. reflexivity. Qed.

(** ** json: loading what was dumped *)

Lemma pyval_ind (P : pyval -> Prop) :
  P VNone -> (forall b, P (VBool b)) -> (forall z, P (VInt z)) ->
  (forall q, P (VFloat q)) -> (forall s, P (VStr s)) ->
  (forall l, Forall P l -> P (VList l)) ->
  (forall d, Forall (fun kv => P kv.2) d -> P (VDict d)) ->
  forall v, P v.
Proof.
  intros HN HB HI HF HS HL HD. fix IH 1.
  intros [ | b | z | q | s | l | d];
    [apply HN | apply HB | apply HI | apply HF | apply HS | |].
  - apply HL. induction l as [|x l IHl]; constructor; [apply IH | apply IHl].
  - apply HD. induction d as [|[k x] d IHd]; constructor; [apply IH | apply IHd].
Qed.

Lemma dict_set_fresh {V} (d : list (string * V)) k v :
  k ∉ d.*1 -> dict_set d k v = d ++ [(k, v)].
Proof.
  induction d as [|[k' v'] d IH]; simpl; intros Hk; [done|].
  apply not_elem_of_cons in Hk as [Hne Hk].
  case_decide; [congruence|]. by rewrite IH.
Qed.

Lemma dict_get_set_eq {V} (d : list (string * V)) k v :
  dict_get (dict_set d k v) k = Some v.
Proof.
  induction d as [|[k' v'] d IH]; simpl.
  - by case_decide.
  - case_decide; simpl; case_decide; congruence.
Qed.

Lemma dict_get_set_ne {V} (d : list (string * V)) k k' v :
  k ≠ k' -> dict_get (dict_set d k v) k' = dict_get d k'.
Proof.
  intros Hne. induction d as [|[k0 v0] d IH]; simpl.
  - by case_decide.
  - repeat (case_decide; simpl); congruence.
Qed.

Lemma loads_members_fresh (acc d : list (string * pyval)) :
  NoDup (acc.*1 ++ d.*1) ->
  Forall (fun kv => json_loads (json_dumps kv.2) = kv.2) d ->
  foldl (fun acc kv => dict_set acc kv.1 (json_loads kv.2)) acc
        (map (fun kv => (kv.1, json_dumps kv.2)) d) = acc ++ d.
Proof.
  revert acc. induction d as [|[k x] d IH]; intros acc Hnd Hd; simpl.
  - by rewrite app_nil_r.
  - apply Forall_cons in Hd as [Hx Hd]. simpl in Hx, Hnd.
    rewrite Hx, dict_set_fresh.
    + rewrite IH; [by rewrite <- app_assoc | | done].
      rewrite fmap_app. simpl. by rewrite <- app_assoc.
    + apply NoDup_app in Hnd as (_ & Hnd & _).
      intros Hk. apply (Hnd k Hk). left.
Qed.

(** A value whose dicts have pairwise different keys is what loading its
    dump gives back. *)
Lemma json_loads_dumps v : wf_pyval v = true -> json_loads (json_dumps v) = v.
Proof.
  induction v as [ | b | z | q | s | l IH | d IH] using pyval_ind;
    simpl; intros Hwf; try done.
  - f_equal. induction IH as [|x l Hx _ IHl]; simpl in *; [done|].
    apply andb_true_iff in Hwf as [Hwx Hwl]. by rewrite Hx, IHl.
  - apply andb_true_iff in Hwf as [Hnd Hwf].
    apply bool_decide_eq_true in Hnd. f_equal.
    rewrite (loads_members_fresh [] d); [done..|].
    clear Hnd. induction IH as [|[k x] d Hx _ IHd]; simpl in *; [done|].
    apply andb_true_iff in Hwf as [Hwx Hwd]. constructor; auto.
Qed.

(** ** BaseMessage: serialisation *)

Lemma BaseMessage_from_json_to_json json_parse m w :
  let c := json_loads (json_dumps (load w (BaseMessage.content m))) in
  let l := fresh (dom (heap w)) in
  BaseMessage.from_json json_parse (inl (BaseMessage.to_json m w)) w =
  (Ok {| BaseMessage.sender := json_loads (json_dumps (BaseMessage.sender m));
         BaseMessage.receiver := json_loads (json_dumps (BaseMessage.receiver m));
         BaseMessage.message_type :=
           json_loads (json_dumps (BaseMessage.message_type m));
         BaseMessage.content := l;
         BaseMessage.timestamp := stamps (clock w) (ticks (clock w)) |},
   {| heap := <[l := c]> (heap w);
      rng := rng w;
      clock := {| stamps := stamps (clock w); ticks := S (ticks (clock w)) |} |}).
Proof. reflexivity. Qed.

(** C9.  For every message, [from_json(to_json(m))] returns a message with
    the sender, receiver, message type and content of [m]; the content is a
    new object holding the same value, and the timestamp is the one read
    from the clock at the time of the call. *)
Theorem BaseMessage_json_roundtrip json_parse m w :
  wf_pyval (BaseMessage.sender m) = true ->
  wf_pyval (BaseMessage.receiver m) = true ->
  wf_pyval (BaseMessage.message_type m) = true ->
  wf_pyval (load w (BaseMessage.content m)) = true ->
  exists m' w',
    BaseMessage.from_json json_parse (inl (BaseMessage.to_json m w)) w
      = (Ok m', w') /\
    BaseMessage.sender m' = BaseMessage.sender m /\
    BaseMessage.receiver m' = BaseMessage.receiver m /\
    BaseMessage.message_type m' = BaseMessage.message_type m /\
    load w' (BaseMessage.content m') = load w (BaseMessage.content m).
Proof.
  intros Hs Hr Ht Hc. eexists _, _. split.
  - apply BaseMessage_from_json_to_json.
  - simpl. rewrite !json_loads_dumps by done. split_and!; try done.
    unfold load. simpl. apply lookup_total_insert_eq.
Qed.

Lemma BaseMessage_json_roundtrip_witness :
  exists m' w',
    BaseMessage.from_json parse_null (inl (BaseMessage.to_json msg0 world0))
      world0 = (Ok m', w') /\
    BaseMessage.sender m' = VStr "a" /\
    BaseMessage.receiver m' = VStr "b" /\
    BaseMessage.message_type m' = VStr "global_event" /\
    load w' (BaseMessage.content m') = VList [VDict [("text", VStr "hi")]].
Proof.
  apply (BaseMessage_json_roundtrip parse_null msg0 world0); reflexivity.
Defined.

(** ** The discarded contribution metric *)

Lemma BaseMessage_init_vars s r ty c v w :
  exists m,
    (BaseMessage.init s r ty c v w).1 = Ok m /\
    dict_get (BaseMessage.vars m) "contribution_metric" = None.
Proof. eexists. split; reflexivity. Qed.

Lemma metric_ge_vars m threshold :
  MessageManager.metric_ge (BaseMessage.vars m) threshold =
  Ok (Qleb threshold 0).
Proof. reflexivity. Qed.

Lemma filter_loop_vars (ms : list BaseMessage.t) threshold :
  MessageManager.filter_loop (BaseMessage.vars <$> ms) threshold =
  Ok (if Qleb threshold 0 then BaseMessage.vars <$> ms else []).
Proof.
  induction ms as [|m ms IH].
  - simpl. by destruct (Qleb threshold 0).
  - rewrite fmap_cons. cbn [MessageManager.filter_loop].
    rewrite metric_ge_vars, IH. by destruct (Qleb threshold 0).
Qed.

(** C10.  Whatever is passed as [contribution_metric], the constructed
    message has no attribute of that name; on a manager that buffers only
    such messages, [filter_by_metric] returns the empty list for every
    threshold above 0 and all the buffered messages for every threshold
    at or below 0. *)
Theorem contribution_metric_discarded :
  (forall s r ty c v w,
     exists m,
       (BaseMessage.init s r ty c v w).1 = Ok m /\
       dict_get (BaseMessage.vars m) "contribution_metric" = None) /\
  (forall (ms : list BaseMessage.t) threshold,
     let manager := {| MessageManager._messages := BaseMessage.vars <$> ms |} in
     ((0 < threshold)%Q ->
      MessageManager.filter_by_metric manager threshold = Ok []) /\
     ((threshold <= 0)%Q ->
      MessageManager.filter_by_metric manager threshold =
      Ok (BaseMessage.vars <$> ms))).
Proof.
  split; [apply BaseMessage_init_vars|].
  intros ms threshold. simpl. unfold MessageManager.filter_by_metric. simpl.
  rewrite filter_loop_vars. split; intros H.
  - destruct (Qleb threshold 0) eqn:E; [|done].
    apply Qleb_le in E. exfalso. by apply (Qlt_not_le 0 threshold).
  - apply Qleb_le in H. by rewrite H.
Qed.

Lemma contribution_metric_discarded_witness :
  MessageManager.filter_by_metric
    {| MessageManager._messages := [BaseMessage.vars msg0] |} (1 # 2) = Ok [] /\
  MessageManager.filter_by_metric
    {| MessageManager._messages := [BaseMessage.vars msg0] |} 0
    = Ok [BaseMessage.vars msg0].
Proof.
  split.
  - apply (proj1 (proj2 contribution_metric_discarded [msg0] (1 # 2))).
    reflexivity.
  - apply (proj2 (proj2 contribution_metric_discarded [msg0] 0%Q)).
    discriminate.
Defined.

(** ** WorldState: serialisation *)

Lemma WorldState_init_Data bn ge le st gm :
  WorldState.init VNone (Data bn) ge le st gm =
  match bn with
  | VNone =>
      Ok {| WorldState.base_network := Data (VDict []);
            WorldState.global_events := or_default ge (VList []);
            WorldState.local_events := or_default le (VList []);
            WorldState.agent_states := or_default st (VList []);
            WorldState.global_motifs := or_default gm (VList []) |}
  | _ => Raise TypeError
  end.
Proof. by destruct bn. Qed.

Lemma WorldState_from_json_dumped bn ge le st gm :
  WorldState.from_json
    (json_dumps (VDict [("base_network", bn); ("global_events", ge);
                        ("local_events", le); ("agent_states", st);
                        ("global_motifs", gm)])) =
  WorldState.init VNone (Data (json_loads (json_dumps bn)))
    (json_loads (json_dumps ge)) (json_loads (json_dumps le))
    (json_loads (json_dumps st)) (json_loads (json_dumps gm)).
Proof. reflexivity. Qed.

Lemma json_loads_dumps_None v : json_loads (json_dumps v) = VNone -> v = VNone.
Proof. by destruct v. Qed.

(** Whatever text it is given, [from_json] returns only when the text holds
    [null] under ["base_network"], and then with an empty dict in its
    place. *)
Lemma WorldState_from_json_Ok text w :
  WorldState.from_json text = Ok w ->
  WorldState.base_network w = Data (VDict []).
Proof.
  unfold WorldState.from_json.
  repeat (match goal with
          | |- context [py_get ?d ?k ?v] => destruct (py_get d k v); [|done]
          end).
  rewrite WorldState_init_Data. destruct a; [|done..]. by intros [= <-].
Qed.

(** No world state comes back from its own dump with the [base_network] it
    had. *)
Lemma WorldState_roundtrip_loses_base_network w text w' :
  WorldState.to_json w = Ok text ->
  WorldState.from_json text = Ok w' ->
  WorldState.base_network w' ≠ WorldState.base_network w.
Proof.
  destruct w as [[bn| |] ge le st gm]; unfold WorldState.to_json;
    cbn [WorldState.base_network WorldState.global_events
         WorldState.local_events WorldState.agent_states
         WorldState.global_motifs]; [|done..].
  intros Htext Hfrom. injection Htext as <-.
  change (WorldState.from_json
            (json_dumps (VDict [("base_network", bn); ("global_events", ge);
                                ("local_events", le); ("agent_states", st);
                                ("global_motifs", gm)])) = Ok w') in Hfrom.
  rewrite WorldState_from_json_dumped, WorldState_init_Data in Hfrom.
  destruct (json_loads (json_dumps bn)) eqn:E; [|done..].
  apply json_loads_dumps_None in E as ->.
  injection Hfrom as <-. done.
Qed.

(** C5, at [WorldState()]: construction with every argument left out
    succeeds and so does [to_json], and [from_json] on that text raises
    [TypeError], because [__init__] calls the dict it is handed as
    [base_network]; the same happens on the text [{}] where every field is
    absent. *)
Theorem WorldState_roundtrip_raises :
  exists w text,
    WorldState.init VNone (Data VNone) VNone VNone VNone VNone = Ok w /\
    WorldState.to_json w = Ok text /\
    WorldState.from_json text = Raise TypeError /\
    WorldState.from_json (JObject []) = Raise TypeError.
Proof. eexists _, _. split_and!; reflexivity. Qed.

(** ** Node: broadcasting *)

Section broadcasting.

Import Node.

Implicit Types (s : Node.state) (m : BaseMessage.t).

(** One turn of the loop: draw, read the probability, compare. *)
Ltac step_broadcast :=
  cbn [broadcast_loop]; unfold bind, in_world, draw, get_self; simpl.

(** The call of [BaseMessage] in [broadcast_messages] gives no
    [message_type], so it raises before anything is constructed. *)
Lemma broadcast_call_raises node c w :
  BaseMessage.new
    {| BaseMessage.a_sender := Some (VStr "CentralNod");
       BaseMessage.a_receiver := Some (VStr node);
       BaseMessage.a_message_type := None;
       BaseMessage.a_content := Some c;
       BaseMessage.a_contribution_metric := None |} w = (Raise TypeError, w).
Proof. reflexivity. Qed.

(** Whatever the probability and the draws, the node is left as it was:
    no message is ever appended. *)
Lemma broadcast_loop_self m nodes s :
  self (broadcast_loop m nodes s).2 = self s.
Proof.
  revert s. induction nodes as [|node rest IH]; intros s; [done|].
  step_broadcast.
  destruct (Qltb _ _); [done|]. by rewrite IH.
Qed.

Lemma broadcast_loop_p1 m nodes s :
  unit_draws (rng (world s)) -> (p (self s) == 1)%Q -> nodes ≠ [] ->
  (broadcast_loop m nodes s).1 = Raise TypeError.
Proof.
  intros Hdraws Hp Hne. destruct nodes as [|node rest]; [done|].
  step_broadcast.
  assert (Qltb (draws (rng (world s)) (pos (rng (world s)))) (p (self s))
          = true) as ->; [|done].
  apply Qltb_lt. rewrite Hp. apply Hdraws.
Qed.

Lemma broadcast_loop_p0 m nodes s :
  unit_draws (rng (world s)) -> (p (self s) == 0)%Q ->
  (broadcast_loop m nodes s).1 = Ok ().
Proof.
  revert s. induction nodes as [|node rest IH]; intros s Hdraws Hp; [done|].
  step_broadcast.
  assert (Qltb (draws (rng (world s)) (pos (rng (world s)))) (p (self s))
          = false) as ->.
  { apply Qltb_false. rewrite Hp. apply Hdraws. }
  by apply IH.
Qed.

(** With probability 0 the call returns and appends nothing. *)
Lemma broadcast_messages_p0 m s :
  unit_draws (rng (world s)) -> (p (self s) == 0)%Q ->
  (broadcast_messages m s).1 = Ok () /\
  self (broadcast_messages m s).2 = self s.
Proof.
  intros Hdraws Hp. unfold broadcast_messages. split.
  - by apply broadcast_loop_p0.
  - apply broadcast_loop_self.
Qed.

(** With probability 1 and at least one agent the call raises, and
    appends nothing. *)
Lemma broadcast_messages_p1 m s :
  unit_draws (rng (world s)) -> (p (self s) == 1)%Q ->
  DiGraph.nodes (BaseNetwork.graph (base_network (self s))) ≠ [] ->
  (broadcast_messages m s).1 = Raise TypeError /\
  self (broadcast_messages m s).2 = self s.
Proof.
  intros Hdraws Hp Hne. unfold broadcast_messages. split.
  - by apply broadcast_loop_p1.
  - apply broadcast_loop_self.
Qed.

End broadcasting.

(** C2, at a node over the three agents [A], [B], [C] with dissemination
    probability 1.0: [broadcast_messages] raises [TypeError] at the first
    agent and the channel stays empty, where the specification has three
    messages appended. *)
Theorem broadcast_messages_p1_raises :
  let s := {| Node.self := node_abc 1; Node.world := world0 |} in
  DiGraph.nodes (BaseNetwork.graph (Node.base_network (Node.self s)))
    = ["A"; "B"; "C"] /\
  (Node.broadcast_messages msg0 s).1 = Raise TypeError /\
  messages (Node.broadcast (Node.self (Node.broadcast_messages msg0 s).2)) = [].
Proof. by vm_compute. Qed.

(** ** Node: evaluating *)

(** C7, at a channel that buffers one message whose content is a list of
    dicts, as [BaseMessage] annotates it: [evaluate_messages] calls the
    scorer and then raises [TypeError] on the subscript assignment (or
    raises what the scorer raised); no importance is set and the state is
    left as it was. *)
Theorem evaluate_messages_list_content_raises (evaluate : pyval -> result Q) :
  let s := {| Node.self := node_with [msg0]; Node.world := world0 |} in
  load world0 (BaseMessage.content msg0) = VList [VDict [("text", VStr "hi")]] /\
  Node.evaluate_messages evaluate s =
    (match evaluate (VList [VDict [("text", VStr "hi")]]) with
     | Ok _ => Raise TypeError
     | Raise e => Raise e
     end, s) /\
  importance (Node.world (Node.evaluate_messages evaluate s).2) msg0 = None.
Proof.
  simpl. split_and!.
  - reflexivity.
  - unfold Node.evaluate_messages. simpl.
    change (load world0 1%positive) with (VList [VDict [("text", VStr "hi")]]).
    by destruct (evaluate _).
  - unfold Node.evaluate_messages. simpl.
    change (load world0 1%positive) with (VList [VDict [("text", VStr "hi")]]).
    by destruct (evaluate _).
Qed.

(** ** Node: cherry-picking *)

Section cherrypicking.

Import Node.

Implicit Types (s : Node.state) (m : BaseMessage.t).

Lemma importance_Some w m q :
  importance w m = Some q ->
  exists d v,
    load w (BaseMessage.content m) = VDict d /\
    dict_get d "importance" = Some v /\ as_number v = Some q.
Proof.
  unfold importance. destruct (load w _) as [ | | | | | |d]; try done.
  destruct (dict_get d "importance") as [v|] eqn:E; [|done].
  simpl. intros H. by exists d, v.
Qed.

Lemma cherrypick_loop_scored rejects ms s :
  Forall (scored (world s)) ms ->
  accepts_all rejects (chain (self s)) (above_threshold (world s) ms) ->
  cherrypick_loop rejects ms s =
  (Ok (),
   {| self := {| base_network := base_network (self s);
                 broadcast := broadcast (self s);
                 chain := {| blocks := blocks (chain (self s)) ++
                                       above_threshold (world s) ms |};
                 p := p (self s);
                 node_id := node_id (self s) |};
      world := world s |}).
Proof.
  revert s. induction ms as [|m ms IH]; intros s Hs Hacc.
  - simpl. unfold above_threshold. rewrite filter_nil, app_nil_r.
    by destruct s as [[? ? [?] ? ?] ?].
  - apply Forall_cons in Hs as [[q Hq] Hms].
    destruct (importance_Some _ _ _ Hq) as (d & v & Hload & Hget & Hnum).
    cbn [cherrypick_loop]. rewrite Hload. simpl. rewrite Hget.
    unfold py_gt. rewrite Hnum.
    unfold above_threshold in *. rewrite filter_cons in *. rewrite Hq in *.
    simpl in Hacc |- *.
    destruct (Qltb (1 # 2) q) eqn:E.
    + rewrite decide_True in Hacc |- * by done.
      destruct Hacc as [Hm Hacc].
      unfold bind, commit, add_block. rewrite Hm. simpl.
      rewrite IH by done. simpl.
      unfold above_threshold. by rewrite <- app_assoc.
    + rewrite decide_False in Hacc |- * by done. by rewrite IH.
Qed.

End cherrypicking.

(** C3, as amended.  When every buffered message has a dict as content with
    a number under ["importance"], and the history log takes each append
    of the call, [cherrypick_messages] returns, has invoked [add_block] on
    exactly the buffered messages whose importance is above 0.5, in their
    buffered order, and leaves the channel and every content as they
    were. *)
Theorem cherrypick_messages_spec rejects (s : Node.state) :
  Forall (fun m => is_Some (importance (Node.world s) m))
         (messages (Node.broadcast (Node.self s))) ->
  accepts_all rejects (Node.chain (Node.self s))
    (above_threshold (Node.world s) (messages (Node.broadcast (Node.self s)))) ->
  (Node.cherrypick_messages rejects s).1 = Ok () /\
  blocks (Node.chain (Node.self (Node.cherrypick_messages rejects s).2)) =
    blocks (Node.chain (Node.self s)) ++
    above_threshold (Node.world s) (messages (Node.broadcast (Node.self s))) /\
  messages (Node.broadcast (Node.self (Node.cherrypick_messages rejects s).2)) =
    messages (Node.broadcast (Node.self s)) /\
  Node.world (Node.cherrypick_messages rejects s).2 = Node.world s.
Proof.
  intros Hs Hacc. unfold Node.cherrypick_messages.
  by rewrite cherrypick_loop_scored.
Qed.

Lemma cherrypick_messages_spec_witness :
  let s := {| Node.self := node_with [msg_at 1%positive; msg_at 2%positive; msg_at 3%positive];
              Node.world := world3 |} in
  (Node.cherrypick_messages (log_bounded 2) s).1 = Ok () /\
  blocks (Node.chain (Node.self (Node.cherrypick_messages (log_bounded 2) s).2)) =
    [] ++ above_threshold world3 [msg_at 1%positive; msg_at 2%positive; msg_at 3%positive] /\
  messages (Node.broadcast (Node.self (Node.cherrypick_messages (log_bounded 2) s).2)) =
    [msg_at 1%positive; msg_at 2%positive; msg_at 3%positive] /\
  Node.world (Node.cherrypick_messages (log_bounded 2) s).2 = world3.
Proof.
  apply (cherrypick_messages_spec (log_bounded 2)
           {| Node.self := node_with [msg_at 1%positive; msg_at 2%positive; msg_at 3%positive];
              Node.world := world3 |}).
  - simpl. repeat constructor; by eexists.
  - by vm_compute.
Defined.

(** The scenario of the specification: of three buffered messages with the
    importances 0.9, 0.4 and 0.6, the first and the third are committed. *)
Example cherrypick_first_and_third :
  above_threshold world3 [msg_at 1%positive; msg_at 2%positive; msg_at 3%positive] = [msg_at 1%positive; msg_at 3%positive].
Proof. reflexivity. Qed.

(** C3, as stated for every channel state, fails on a channel that buffers
    a message not yet evaluated ahead of one with importance 0.9, even
    with a log that takes every append: [cherrypick_messages] raises
    [KeyError] at the first and [add_block] is never invoked on the
    second. *)
Lemma cherrypick_unevaluated_raises :
  let s := {| Node.self := node_with [msg1; msg2]; Node.world := world1 |} in
  importance world1 msg2 = Some (9 # 10) /\
  Qltb (1 # 2) (9 # 10) = true /\
  (Node.cherrypick_messages log_open s).1 = Raise KeyError /\
  blocks (Node.chain (Node.self (Node.cherrypick_messages log_open s).2)) = [].
Proof. by vm_compute. Qed.

(** ** Node: evaluating contents that are dicts

    What [evaluate_messages] does where the contents are dicts and the
    scorer returns: every buffered message ends with an importance, and no
    content object other than those of the buffered messages is touched.
    Contents are shared objects, so a message outside the channel that
    shares its content with a buffered one sees the importance too. *)

Section evaluating.

Import Node.

Variable evaluate : pyval -> result Q.
Hypothesis evaluate_returns : forall c, exists q, evaluate c = Ok q.

Implicit Types (s : Node.state) (m : BaseMessage.t).

Lemma scored_same_content w m m' :
  BaseMessage.content m = BaseMessage.content m' -> scored w m -> scored w m'.
Proof. unfold scored, importance. by intros ->. Qed.

Lemma scored_after_setitem w m d q :
  load w (BaseMessage.content m) = VDict (dict_set d "importance" (VFloat q)) ->
  scored w m.
Proof.
  intros H. unfold scored, importance. rewrite H, dict_get_set_eq. by eexists.
Qed.

Lemma evaluate_loop_dicts ms s :
  Forall (fun m => exists d, load (world s) (BaseMessage.content m) = VDict d) ms ->
  exists w',
    evaluate_loop evaluate ms s = (Ok (), {| self := self s; world := w' |}) /\
    rng w' = rng (world s) /\ clock w' = clock (world s) /\
    (forall l, l ∉ BaseMessage.content <$> ms -> load w' l = load (world s) l) /\
    Forall (scored w') ms.
Proof.
  revert s. induction ms as [|m ms IH]; intros s Hdicts.
  - exists (world s). destruct s. simpl. split_and!; try done.
  - apply Forall_cons in Hdicts as [[d Hd] Hrest].
    destruct (evaluate_returns (VDict d)) as [q Hq].
    set (c' := VDict (dict_set d "importance" (VFloat q))).
    set (s1 := {| self := self s;
                  world := {| heap := <[BaseMessage.content m := c']> (heap (world s));
                              rng := rng (world s);
                              clock := clock (world s) |} |}).
    assert (forall l, l ≠ BaseMessage.content m ->
                      load (world s1) l = load (world s) l) as Hframe1.
    { intros l Hl. unfold load. simpl. by rewrite lookup_total_insert_ne. }
    assert (load (world s1) (BaseMessage.content m) = c') as Hset.
    { unfold load. simpl. by rewrite lookup_total_insert_eq. }
    destruct (IH s1) as (w' & Hrun & Hrng & Hclock & Hframe & Hscored).
    { eapply Forall_impl; [exact Hrest|]. intros m' [d' Hd'].
      destruct (decide (BaseMessage.content m' = BaseMessage.content m)) as [E|E].
      - rewrite E, Hset. by eexists.
      - rewrite (Hframe1 _ E). by eexists. }
    exists w'. split_and!.
    + cbn [evaluate_loop]. rewrite Hd, Hq. simpl.
      unfold bind, in_world, store. simpl. exact Hrun.
    + by rewrite Hrng.
    + by rewrite Hclock.
    + intros l Hl. rewrite fmap_cons in Hl.
      apply not_elem_of_cons in Hl as [Hne Hl].
      rewrite (Hframe l Hl). by apply Hframe1.
    + apply Forall_cons. split; [|done].
      destruct (decide (BaseMessage.content m ∈ BaseMessage.content <$> ms))
        as [Hin|Hout].
      * apply list_elem_of_fmap in Hin as (m' & Hc & Hm').
        apply (scored_same_content w' m' m); [done|].
        by eapply (proj1 (Forall_forall _ _) Hscored).
      * apply (scored_after_setitem w' m d q). by rewrite (Hframe _ Hout).
Qed.

Lemma evaluate_messages_dicts s :
  Forall (fun m => exists d, load (world s) (BaseMessage.content m) = VDict d)
         (messages (broadcast (self s))) ->
  exists w',
    evaluate_messages evaluate s = (Ok (), {| self := self s; world := w' |}) /\
    (forall l, l ∉ BaseMessage.content <$> messages (broadcast (self s)) ->
               load w' l = load (world s) l) /\
    Forall (scored w') (messages (broadcast (self s))).
Proof.
  intros H. destruct (evaluate_loop_dicts _ s H) as (w' & Hrun & _ & _ & Hf & Hs).
  by exists w'.
Qed.

End evaluating.

(** ** The scenarios of the specification *)

(** Over [A; B; C] with probability 1.0 the edges are [A -> B], [A -> C]
    and [B -> C]: each reverse pair is skipped. *)
Example topology_ABC_p1 :
  DiGraph.edges (BaseNetwork.graph
    (BaseNetwork.init ["A"; "B"; "C"] 1 "net" zero_draws).1)
  = [("A", "B"); ("A", "C"); ("B", "C")].
Proof. reflexivity. Qed.

(** The sample networks are states the code reaches. *)
Example net_ab_constructed :
  (BaseNetwork.init ["a"; "b"] (1 # 2) "u" zero_draws).1 = net_ab.
Proof. reflexivity. Qed.

Example net_loop_reached :
  (BaseNetwork.connect_edge "a" "a"
     (BaseNetwork.init ["a"] (1 # 2) "u" zero_draws).1).2 = net_loop.
Proof. reflexivity. Qed.

(** [agreement] accepts when its draw is below 0.5. *)
Example agreement_draws_once :
  BaseNetwork.agreement "a" "b" zero_draws =
  (true, {| draws := draws zero_draws; pos := 1 |}).
Proof. reflexivity. Qed.

(** * Further properties *)

(** ** Edge operations: what changes and what does not *)

Section edges.

Import DiGraph BaseNetwork.

Implicit Types (g : DiGraph.t) (n : BaseNetwork.t) (u v a b x y : string).

Lemma has_edge_ext g g' x y :
  (has_edge g x y = true <-> has_edge g' x y = true) ->
  has_edge g x y = has_edge g' x y.
Proof.
  intros H. destruct (has_edge g x y), (has_edge g' x y); try done.
  - symmetry. by apply H.
  - by apply H.
Qed.

Lemma filter_absent (es : list (string * string)) (e : string * string) :
  e ∉ es -> filter (fun e' => e' ≠ e) es = es.
Proof.
  induction es as [|e' es IH]; [done|].
  intros [Hne Hes]%not_elem_of_cons.
  rewrite filter_cons, decide_True by done. by rewrite IH.
Qed.

Lemma connect_edge_has_edge n a b x y :
  has_edge (graph (connect_edge a b n).2) x y = true <->
  has_edge (graph n) x y = true \/ (x = a /\ y = b).
Proof.
  unfold connect_edge. destruct (has_edge (graph n) a b) eqn:E; simpl.
  - split; [auto | intros [H | [-> ->]]; done].
  - apply add_edge_has_edge.
Qed.

Lemma disconnect_edge_has_edge n a b x y :
  has_edge (graph (disconnect_edge a b n).2) x y = true <->
  has_edge (graph n) x y = true /\ (x, y) ≠ (a, b).
Proof.
  unfold disconnect_edge, remove_edge.
  destruct (has_edge (graph n) a b) eqn:E; simpl.
  - rewrite !has_edge_true. simpl. rewrite list_elem_of_filter. tauto.
  - split; [|tauto]. intros H. split; [done|]. intros [= -> ->]. congruence.
Qed.

(** X1.  [connect_edge(a, b)] returns, leaves [a -> b] present and changes
    the presence of no other edge; [disconnect_edge(a, b)] returns, leaves
    [a -> b] absent and changes the presence of no other edge. *)
Theorem connect_disconnect_frame n a b :
  (connect_edge a b n).1 = Ok VNone /\
  (disconnect_edge a b n).1 = Ok VNone /\
  has_edge (graph (connect_edge a b n).2) a b = true /\
  has_edge (graph (disconnect_edge a b n).2) a b = false /\
  (forall x y, (x, y) ≠ (a, b) ->
     has_edge (graph (connect_edge a b n).2) x y = has_edge (graph n) x y /\
     has_edge (graph (disconnect_edge a b n).2) x y = has_edge (graph n) x y).
Proof.
  split_and!.
  - unfold connect_edge. by destruct (has_edge (graph n) a b).
  - unfold disconnect_edge, remove_edge. by destruct (has_edge (graph n) a b).
  - apply connect_edge_has_edge. by right.
  - destruct (has_edge (graph (disconnect_edge a b n).2) a b) eqn:E; [|done].
    apply disconnect_edge_has_edge in E as [_ E]. done.
  - intros x y Hne. split; apply has_edge_ext.
    + rewrite connect_edge_has_edge. split; [|auto].
      intros [H | [-> ->]]; done.
    + rewrite disconnect_edge_has_edge. tauto.
Qed.

(** X2.  Calling [connect_edge] twice in succession leaves the topology
    that one call leaves, and so does calling [disconnect_edge] twice. *)
Theorem connect_disconnect_idempotent n a b :
  connect_edge a b (connect_edge a b n).2 = (Ok VNone, (connect_edge a b n).2) /\
  disconnect_edge a b (disconnect_edge a b n).2 =
    (Ok VNone, (disconnect_edge a b n).2).
Proof.
  split.
  - assert (has_edge (graph (connect_edge a b n).2) a b = true) as H
      by (apply connect_edge_has_edge; by right).
    unfold connect_edge at 1. by rewrite H.
  - assert (has_edge (graph (disconnect_edge a b n).2) a b = false) as H.
    { destruct (has_edge (graph (disconnect_edge a b n).2) a b) eqn:E; [|done].
      apply disconnect_edge_has_edge in E as [_ E]. done. }
    unfold disconnect_edge at 1. by rewrite H.
Qed.

(** X3.  On a topology where [a -> b] is absent and [a], [b] are nodes,
    [connect_edge(a, b)] followed by [disconnect_edge(a, b)] gives back the
    very topology, node and edge order included. *)
Theorem connect_then_disconnect n a b :
  has_edge (graph n) a b = false ->
  a ∈ nodes (graph n) -> b ∈ nodes (graph n) ->
  (disconnect_edge a b (connect_edge a b n).2).2 = n.
Proof.
  intros Habs Ha Hb.
  assert (has_edge (graph (connect_edge a b n).2) a b = true) as H
    by (apply connect_edge_has_edge; by right).
  unfold disconnect_edge at 1. rewrite H. rewrite (remove_edge_Ok _ _ _ H).
  unfold connect_edge. rewrite Habs. simpl.
  unfold add_edge. rewrite (add_node_known _ a Ha), (add_node_known _ b Hb).
  rewrite Habs. simpl.
  rewrite filter_app, filter_absent by (by apply has_edge_false).
  rewrite filter_cons, decide_False by (intros Hne; by apply Hne).
  rewrite filter_nil, app_nil_r.
  by destruct n as [ids pr [ns es] u].
Qed.

Lemma connect_then_disconnect_witness :
  (disconnect_edge "b" "a" (connect_edge "b" "a" net_ab).2).2 = net_ab.
Proof.
  apply (connect_then_disconnect net_ab "b" "a").
  - reflexivity.
  - right. left.
  - left.
Defined.

Lemma reverse_edge_has_edge n a b x y :
  has_edge (graph n) a b = true ->
  has_edge (graph (reverse_edge a b n).2) x y = true <->
  (x = b /\ y = a) \/ (has_edge (graph n) x y = true /\ (x, y) ≠ (a, b)).
Proof.
  intros H. unfold reverse_edge. rewrite (remove_edge_Ok _ _ _ H). simpl.
  rewrite add_edge_has_edge, !has_edge_true. simpl.
  rewrite list_elem_of_filter. tauto.
Qed.

(** X4.  When [a -> b] is present, [reverse_edge(a, b)] leaves [b -> a]
    present, removes [a -> b] (unless [a = b]) and changes the presence of
    no other edge. *)
Theorem reverse_edge_frame n a b x y :
  has_edge (graph n) a b = true ->
  has_edge (graph (reverse_edge a b n).2) x y = true <->
  (x = b /\ y = a) \/ (has_edge (graph n) x y = true /\ (x, y) ≠ (a, b)).
Proof. apply reverse_edge_has_edge. Qed.

Lemma reverse_edge_frame_witness :
  has_edge (graph (reverse_edge "a" "b" net_ab).2) "b" "a" = true <->
  ("b" = "b" /\ "a" = "a") \/
  (has_edge (graph net_ab) "b" "a" = true /\ ("b", "a") ≠ ("a", "b")).
Proof. apply (reverse_edge_frame net_ab "a" "b" "b" "a"). reflexivity. Defined.

(** X5.  When [a -> b] is present and [b -> a] is not (or [a = b]),
    reversing the edge and reversing it back both return, and every edge is
    present afterwards exactly when it was before. *)
Theorem reverse_edge_twice n a b :
  has_edge (graph n) a b = true ->
  a = b \/ has_edge (graph n) b a = false ->
  (reverse_edge a b n).1 = Ok VNone /\
  (reverse_edge b a (reverse_edge a b n).2).1 = Ok VNone /\
  forall x y,
    has_edge (graph (reverse_edge b a (reverse_edge a b n).2).2) x y =
    has_edge (graph n) x y.
Proof.
  intros Hab Hba.
  assert (has_edge (graph (reverse_edge a b n).2) b a = true) as Hrev
    by (apply reverse_edge_has_edge; auto).
  split_and!.
  - unfold reverse_edge. by rewrite (remove_edge_Ok _ _ _ Hab).
  - unfold reverse_edge at 1. by rewrite (remove_edge_Ok _ _ _ Hrev).
  - intros x y. apply has_edge_ext.
    rewrite (reverse_edge_has_edge _ b a x y Hrev).
    rewrite (reverse_edge_has_edge _ a b x y Hab).
    split.
    + intros [[-> ->] | [[[-> ->] | [H _]] Hne]]; done.
    + intros H. destruct (decide ((x, y) = (a, b))) as [[= -> ->]|Hne]; [by left|].
      right. split; [by right|].
      intros [= -> ->]. destruct Hba as [-> | Hba]; [done | congruence].
Qed.

Lemma reverse_edge_twice_witness :
  (reverse_edge "a" "b" net_ab).1 = Ok VNone /\
  (reverse_edge "b" "a" (reverse_edge "a" "b" net_ab).2).1 = Ok VNone /\
  forall x y,
    has_edge (graph (reverse_edge "b" "a" (reverse_edge "a" "b" net_ab).2).2) x y =
    has_edge (graph net_ab) x y.
Proof.
  apply (reverse_edge_twice net_ab "a" "b"); [reflexivity | right; reflexivity].
Defined.

End edges.

Lemma connect_disconnect_frame_witness :
  DiGraph.has_edge
    (BaseNetwork.graph (BaseNetwork.connect_edge "b" "a" net_ab).2) "a" "b" =
  DiGraph.has_edge (BaseNetwork.graph net_ab) "a" "b" /\
  DiGraph.has_edge
    (BaseNetwork.graph (BaseNetwork.disconnect_edge "b" "a" net_ab).2) "a" "b" =
  DiGraph.has_edge (BaseNetwork.graph net_ab) "a" "b".
Proof.
  apply (proj2 (proj2 (proj2 (proj2
           (connect_disconnect_frame net_ab "b" "a"))))).
  discriminate.
Defined.

(** ** Generating the topology: what the draws decide *)

Section generation.

Import DiGraph BaseNetwork.

Implicit Types (g : DiGraph.t) (r : Rng) (a b x y : string).

Lemma permutations2_lookup {A} (xs : list A) (x y : A) :
  (x, y) ∈ permutations2 xs <->
  exists i j : nat, i ≠ j /\ xs !! i = Some x /\ xs !! j = Some y.
Proof.
  unfold permutations2. split.
  - intros (row & Hrow & Hin)%list_elem_of_join.
    apply elem_of_lookup_imap in Hin as (i & x' & -> & Hx).
    apply list_elem_of_join in Hrow as (cell & Hcell & Hin).
    apply elem_of_lookup_imap in Hin as (j & y' & -> & Hy).
    case_decide; [by apply elem_of_nil in Hcell|].
    apply list_elem_of_singleton in Hcell as [= -> ->]. by exists i, j.
  - intros (i & j & Hij & Hx & Hy).
    apply list_elem_of_join. eexists. split.
    2: { apply elem_of_lookup_imap. by exists i, x. }
    apply list_elem_of_join. exists [(x, y)]. split; [left|].
    apply elem_of_lookup_imap. exists j, y. split; [|done].
    by rewrite decide_False.
Qed.

(** The loop only ever adds edges, and only edges among its pairs. *)
Lemma generate_pairs_mono prob pairs g r a b :
  has_edge g a b = true ->
  has_edge (generate_pairs prob pairs g r).1 a b = true.
Proof.
  revert g r. induction pairs as [|[s e] rest IH]; intros g r H; simpl; [done|].
  destruct (has_edge g e s); [by apply IH|].
  destruct (Qleb (draws r (pos r)) prob); apply IH; [|done].
  apply add_edge_has_edge. by left.
Qed.

Lemma generate_pairs_from prob pairs g r a b :
  has_edge (generate_pairs prob pairs g r).1 a b = true ->
  has_edge g a b = true \/ (a, b) ∈ pairs.
Proof.
  revert g r. induction pairs as [|[s e] rest IH]; intros g r; simpl; [auto|].
  destruct (has_edge g e s).
  { intros [H|H]%IH; [by left | right; by right]. }
  destruct (Qleb (draws r (pos r)) prob).
  - intros [H|H]%IH; [|right; by right].
    apply add_edge_has_edge in H as [H | [-> ->]]; [by left | right; left].
  - intros [H|H]%IH; [by left | right; by right].
Qed.

Lemma generate_pairs_all prob pairs g r a b :
  (forall k, (draws r k <= prob)%Q) -> (a, b) ∈ pairs ->
  has_edge (generate_pairs prob pairs g r).1 a b = true \/
  has_edge (generate_pairs prob pairs g r).1 b a = true.
Proof.
  intros Hdraws. revert g r Hdraws.
  induction pairs as [|[s e] rest IH]; intros g r Hdraws Hin; simpl.
  { by apply elem_of_nil in Hin. }
  apply elem_of_cons in Hin as [[= -> ->] | Hin].
  - destruct (has_edge g e s) eqn:E.
    + right. by apply generate_pairs_mono.
    + assert (Qleb (draws r (pos r)) prob = true) as ->
        by apply Qleb_le, Hdraws.
      left. apply generate_pairs_mono, add_edge_has_edge. by right.
  - destruct (has_edge g e s); [by apply IH|].
    destruct (Qleb (draws r (pos r)) prob); by apply IH.
Qed.

Lemma generate_pairs_none prob pairs g r :
  (forall k, (prob < draws r k)%Q) -> (generate_pairs prob pairs g r).1 = g.
Proof.
  intros Hdraws. revert g r Hdraws.
  induction pairs as [|[s e] rest IH]; intros g r Hdraws; simpl; [done|].
  destruct (has_edge g e s); [by apply IH|].
  assert (Qleb (draws r (pos r)) prob = false) as ->.
  { destruct (Qleb _ _) eqn:E; [|done]. apply Qleb_le in E.
    exfalso. by apply (Qlt_not_le _ _ (Hdraws (pos r))). }
  by apply IH.
Qed.

(** X6.  Every edge of a constructed topology joins two agent ids, and
    when no agent id is repeated no agent is joined to itself. *)
Theorem init_edges_among_agents ids prob fresh_uuid r :
  let g := graph (init ids prob fresh_uuid r).1 in
  (forall a b, has_edge g a b = true -> a ∈ ids /\ b ∈ ids) /\
  (NoDup ids -> forall a, has_edge g a a = false).
Proof.
  simpl. rewrite init_graph. split.
  - intros a b [H | H]%generate_pairs_from.
    + apply has_edge_true in H. rewrite add_nodes_from_edges in H.
      by apply elem_of_nil in H.
    + by apply permutations2_elem.
  - intros Hnd a.
    destruct (has_edge _ a a) eqn:E; [|done].
    apply generate_pairs_from in E as [H | H].
    + apply has_edge_true in H. rewrite add_nodes_from_edges in H.
      by apply elem_of_nil in H.
    + apply permutations2_lookup in H as (i & j & Hij & Hi & Hj).
      destruct Hij. by eapply NoDup_lookup.
Qed.

Lemma init_edges_among_agents_witness :
  has_edge (graph (init ["A"; "B"; "C"] 1 "net" zero_draws).1) "A" "A" = false /\
  "A" ∈ ["A"; "B"; "C"] /\ "B" ∈ ["A"; "B"; "C"].
Proof.
  split.
  - apply (proj2 (init_edges_among_agents ["A"; "B"; "C"] 1 "net" zero_draws)).
    apply (bool_decide_unpack (NoDup ["A"; "B"; "C"])). by vm_compute.
  - apply (proj1 (init_edges_among_agents ["A"; "B"; "C"] 1 "net" zero_draws)
                 "A" "B").
    reflexivity.
Defined.

(** With an id given twice the loop does visit the pair of the id with
    itself. *)
Example init_repeated_id_self_loop :
  has_edge (graph (init ["a"; "a"] 1 "net" zero_draws).1) "a" "a" = true.
Proof. reflexivity. Qed.

(** X7.  When every draw is at most the probability (as with probability
    1.0), any two distinct agent ids are joined in exactly one direction. *)
Theorem init_all_draws_accepted ids prob fresh_uuid r a b :
  (forall k, (draws r k <= prob)%Q) ->
  a ∈ ids -> b ∈ ids -> a ≠ b ->
  let g := graph (init ids prob fresh_uuid r).1 in
  (has_edge g a b = true \/ has_edge g b a = true) /\
  ¬ (has_edge g a b = true /\ has_edge g b a = true).
Proof.
  intros Hdraws Ha Hb Hab. simpl. split.
  - rewrite init_graph. apply generate_pairs_all; [done|].
    apply list_elem_of_lookup in Ha as [i Hi].
    apply list_elem_of_lookup in Hb as [j Hj].
    apply permutations2_lookup. exists i, j. split_and!; [|done..].
    intros ->. congruence.
  - by apply no_bidirectional_init.
Qed.

Lemma init_all_draws_accepted_witness :
  let g := graph (init ["A"; "B"; "C"] 1 "net" zero_draws).1 in
  (has_edge g "C" "A" = true \/ has_edge g "A" "C" = true) /\
  ¬ (has_edge g "C" "A" = true /\ has_edge g "A" "C" = true).
Proof.
  apply (init_all_draws_accepted ["A"; "B"; "C"] 1 "net" zero_draws "C" "A").
  - intros k. discriminate.
  - right. right. left.
  - left.
  - discriminate.
Defined.

(** X8.  When every draw is above the probability the constructed topology
    has no edge and the agent ids as its nodes; a draw equal to the
    probability does add its edge, the test being [<=]. *)
Theorem init_no_draw_accepted ids prob fresh_uuid r :
  (forall k, (prob < draws r k)%Q) ->
  graph (init ids prob fresh_uuid r).1 = add_nodes_from empty ids /\
  edges (graph (init ids prob fresh_uuid r).1) = [].
Proof.
  intros Hdraws. rewrite init_graph, generate_pairs_none by done.
  split; [done|]. by rewrite add_nodes_from_edges.
Qed.

Lemma init_no_draw_accepted_witness :
  graph (init ["A"; "B"] (-1) "net" zero_draws).1 =
    add_nodes_from empty ["A"; "B"] /\
  edges (graph (init ["A"; "B"] (-1) "net" zero_draws).1) = [].
Proof.
  apply (init_no_draw_accepted ["A"; "B"] (-1) "net" zero_draws).
  intros k. reflexivity.
Defined.

(** With probability 0.0 a draw of exactly 0.0 still adds the edge. *)
Example init_p0_draw0_adds_edge :
  edges (graph (init ["A"; "B"] 0 "net" zero_draws).1) = [("A", "B")].
Proof. reflexivity. Qed.

End generation.

(** ** BaseNetwork.to_json *)

Section network_json.

Import DiGraph BaseNetwork.

Implicit Types (g : DiGraph.t) (n : BaseNetwork.t) (u v : string).

Lemma foldl_dict_set_fresh {V} (f : string -> V) (acc : list (string * V))
    (ks : list string) :
  NoDup (acc.*1 ++ ks) ->
  foldl (fun acc k => dict_set acc k (f k)) acc ks =
  acc ++ ((fun k => (k, f k)) <$> ks).
Proof.
  revert acc. induction ks as [|k ks IH]; intros acc Hnd; simpl.
  - by rewrite app_nil_r.
  - rewrite dict_set_fresh.
    + rewrite IH; [by rewrite <- app_assoc|].
      rewrite fmap_app. simpl. by rewrite <- app_assoc.
    + apply NoDup_app in Hnd as (_ & Hnd & _).
      intros Hk. apply (Hnd k Hk). left.
Qed.

Lemma dict_get_fmap {V} (f : string -> V) (ks : list string) k :
  dict_get ((fun k => (k, f k)) <$> ks) k =
  if decide (k ∈ ks) then Some (f k) else None.
Proof.
  induction ks as [|k' ks IH].
  - destruct (decide (k ∈ [])) as [Hin|_]; [|done].
    by apply not_elem_of_nil in Hin.
  - rewrite fmap_cons. cbn [dict_get].
    destruct (decide (k' = k)) as [->|Hne].
    + destruct (decide (k ∈ k :: ks)) as [_|Hout]; [done|].
      destruct Hout. left.
    + rewrite IH. destruct (decide (k ∈ ks)) as [Hin|Hout].
      * destruct (decide (k ∈ k' :: ks)) as [_|Hout]; [done|].
        destruct Hout. by right.
      * destruct (decide (k ∈ k' :: ks)) as [[?|?]%elem_of_cons|_];
          [congruence|done|done].
Qed.

Lemma successors_has_edge g u v :
  v ∈ successors g u <-> has_edge g u v = true.
Proof.
  unfold successors. rewrite has_edge_true, list_elem_of_fmap. split.
  - intros ([a b] & -> & [Ha Hin]%list_elem_of_filter). simpl in *. by subst.
  - intros H. exists (u, v). split; [done|].
    by apply list_elem_of_filter.
Qed.

Lemma graph_dict_NoDup g :
  NoDup (nodes g) ->
  graph_dict g = (fun u => (u, VList (VStr <$> successors g u))) <$> nodes g.
Proof.
  intros Hnd. unfold graph_dict.
  by rewrite (foldl_dict_set_fresh
                (fun u => VList (VStr <$> successors g u)) [] (nodes g)).
Qed.

Lemma wf_pyval_strings (l : list string) : wf_pyval (VList (VStr <$> l)) = true.
Proof. simpl. by induction l. Qed.

Lemma wf_pyval_graph_dict g :
  NoDup (nodes g) -> wf_pyval (VDict (graph_dict g)) = true.
Proof.
  intros Hnd. rewrite graph_dict_NoDup by done. simpl.
  apply andb_true_iff. split.
  - apply bool_decide_eq_true. rewrite <- list_fmap_compose.
    replace (_ <$> nodes g) with (nodes g); [done|].
    clear Hnd. induction (nodes g) as [|u us IH]; [done|].
    rewrite fmap_cons. simpl. by rewrite <- IH.
  - induction (nodes g) as [|u us IH]; [done|].
    rewrite fmap_cons. cbn [forallb snd]. rewrite wf_pyval_strings. simpl.
    apply IH. by apply NoDup_cons in Hnd as [_ ?].
Qed.

(** X9.  On a topology whose nodes are listed once, the dumped document
    loads to a dict with one key per node, in node order; under a node it
    holds the list of that node's successors, and [v] is in that list
    exactly when the edge from the node to [v] is present; a key that is no
    node is absent. *)
Theorem to_json_lists_successors n :
  graph_wf (graph n) ->
  json_loads (BaseNetwork_to_json n) =
    VDict ((fun u => (u, VList (VStr <$> successors (graph n) u)))
             <$> nodes (graph n)) /\
  (forall u, u ∈ nodes (graph n) ->
     py_getitem (json_loads (BaseNetwork_to_json n)) u =
     Ok (VList (VStr <$> successors (graph n) u))) /\
  (forall u, u ∉ nodes (graph n) ->
     py_getitem (json_loads (BaseNetwork_to_json n)) u = Raise KeyError) /\
  (forall u v, v ∈ successors (graph n) u <-> has_edge (graph n) u v = true).
Proof.
  intros (Hnd & _ & _).
  assert (json_loads (BaseNetwork_to_json n) =
          VDict ((fun u => (u, VList (VStr <$> successors (graph n) u)))
                   <$> nodes (graph n))) as Hloads.
  { unfold BaseNetwork_to_json.
    rewrite json_loads_dumps by by apply wf_pyval_graph_dict.
    by rewrite graph_dict_NoDup. }
  split_and!; [done | | |].
  - intros u Hu. rewrite Hloads. simpl.
    by rewrite dict_get_fmap, decide_True.
  - intros u Hu. rewrite Hloads. simpl.
    by rewrite dict_get_fmap, decide_False.
  - apply successors_has_edge.
Qed.

Lemma to_json_lists_successors_witness :
  json_loads (BaseNetwork_to_json net_ab) =
    VDict [("a", VList [VStr "b"]); ("b", VList [])].
Proof.
  apply (proj1 (to_json_lists_successors net_ab graph_wf_net_ab)).
Defined.

End network_json.

(** ** BaseMessage.from_json on arbitrary data *)

Section message_parsing.

Variable json_parse : string -> result json.

Implicit Types (w : World) (d : list (string * pyval)).


(** X11.  On a text that is an object holding the four keys [from_json]
    returns a message with the sender, receiver and message type of the
    text; its content is an object that did not exist before and holds the
    content of the text, so every object that existed is left as it was;
    its timestamp is read from the clock, whatever the text holds under
    ["timestamp"]; no random number is drawn. *)
Theorem BaseMessage_from_json_fresh (text : json) w d s r ty c :
  json_loads text = VDict d ->
  dict_get d "sender" = Some s ->
  dict_get d "receiver" = Some r ->
  dict_get d "message_type" = Some ty ->
  dict_get d "content" = Some c ->
  exists m w',
    BaseMessage.from_json json_parse (inl text) w = (Ok m, w') /\
    BaseMessage.sender m = s /\
    BaseMessage.receiver m = r /\
    BaseMessage.message_type m = ty /\
    (BaseMessage.content m ∉ dom (heap w)) /\
    load w' (BaseMessage.content m) = c /\
    (forall l, l ∈ dom (heap w) -> load w' l = load w l) /\
    BaseMessage.timestamp m = stamps (clock w) (ticks (clock w)) /\
    ticks (clock w') = S (ticks (clock w)) /\
    rng w' = rng w.
Proof.
  intros Hd Hs Hr Hty Hc. unfold BaseMessage.from_json, BaseMessage.data_of.
  rewrite Hd. unfold py_getitem. rewrite Hs, Hr, Hty, Hc.
  eexists _, _. split; [reflexivity|]. simpl.
  split_and!; try done.
  - apply is_fresh.
  - unfold load. simpl. apply lookup_total_insert_eq.
  - intros l Hl. unfold load. simpl. apply lookup_total_insert_ne.
    intros <-. by apply (is_fresh (dom (heap w))).
Qed.

End message_parsing.


Lemma BaseMessage_from_json_fresh_witness :
  exists m w',
    BaseMessage.from_json parse_null
      (inl (JObject [("sender", JString "a"); ("receiver", JString "b");
                     ("message_type", JString "note"); ("content", JArray []);
                     ("timestamp", JString "1999-12-31T23:59:59")])) world0
      = (Ok m, w') /\
    BaseMessage.sender m = VStr "a" /\
    BaseMessage.receiver m = VStr "b" /\
    BaseMessage.message_type m = VStr "note" /\
    (BaseMessage.content m ∉ dom (heap world0)) /\
    load w' (BaseMessage.content m) = VList [] /\
    (forall l, l ∈ dom (heap world0) -> load w' l = load world0 l) /\
    BaseMessage.timestamp m = stamps (clock world0) (ticks (clock world0)) /\
    ticks (clock w') = S (ticks (clock world0)) /\
    rng w' = rng world0.
Proof.
  apply (BaseMessage_from_json_fresh parse_null
           (JObject [("sender", JString "a"); ("receiver", JString "b");
                     ("message_type", JString "note"); ("content", JArray []);
                     ("timestamp", JString "1999-12-31T23:59:59")])
           world0
           [("sender", VStr "a"); ("receiver", VStr "b");
            ("message_type", VStr "note"); ("content", VList []);
            ("timestamp", VStr "1999-12-31T23:59:59")]
           (VStr "a") (VStr "b") (VStr "note") (VList []));
    reflexivity.
Defined.


(** ** WorldState.from_json on arbitrary text *)

Section world_state.

Implicit Types (d : list (string * pyval)) (w : WorldState.t).

(** X12.  [from_json] returns exactly on a text that is an object with
    [null] under ["base_network"]: the world state then has the empty dict
    as its base network, and each of the four lists is the one of the text,
    or empty where the text leaves it out or has [null].  On an object
    with anything else under ["base_network"], or without that key, it
    raises [TypeError]; on a text that is no object, [AttributeError]. *)
Theorem WorldState_from_json_cases text :
  (forall d,
     json_loads text = VDict d ->
     dict_get d "base_network" = Some VNone ->
     WorldState.from_json text =
     Ok {| WorldState.base_network := Data (VDict []);
           WorldState.global_events := field d "global_events";
           WorldState.local_events := field d "local_events";
           WorldState.agent_states := field d "agent_states";
           WorldState.global_motifs := field d "global_motifs" |}) /\
  (forall d,
     json_loads text = VDict d ->
     dict_get d "base_network" ≠ Some VNone ->
     WorldState.from_json text = Raise TypeError) /\
  ((forall d, json_loads text ≠ VDict d) ->
   WorldState.from_json text = Raise AttributeError).
Proof.
  unfold WorldState.from_json. split_and!.
  - intros d -> Hbn. unfold py_get. rewrite Hbn. reflexivity.
  - intros d -> Hbn. unfold py_get. rewrite WorldState_init_Data.
    destruct (dict_get d "base_network") as [[]|]; try done.
  - intros Hnd. destruct (json_loads text) as [ | | | | | |d]; try done.
    by destruct (Hnd d).
Qed.

Lemma WorldState_from_json_cases_witness :
  WorldState.from_json
    (JObject [("base_network", JNull); ("global_motifs", JArray [JString "x"]);
              ("agent_states", JNull)]) =
  Ok {| WorldState.base_network := Data (VDict []);
        WorldState.global_events := VList [];
        WorldState.local_events := VList [];
        WorldState.agent_states := VList [];
        WorldState.global_motifs := VList [VStr "x"] |} /\
  WorldState.from_json (JObject [("global_events", JArray [])])
    = Raise TypeError /\
  WorldState.from_json (JArray []) = Raise AttributeError.
Proof.
  split_and!.
  - apply (proj1 (WorldState_from_json_cases
                    (JObject [("base_network", JNull);
                              ("global_motifs", JArray [JString "x"]);
                              ("agent_states", JNull)]))
                 [("base_network", VNone); ("global_motifs", VList [VStr "x"]);
                  ("agent_states", VNone)]); reflexivity.
  - apply (proj1 (proj2 (WorldState_from_json_cases
                           (JObject [("global_events", JArray [])])))
                 [("global_events", VList [])]); [reflexivity|discriminate].
  - apply (proj2 (proj2 (WorldState_from_json_cases (JArray [])))).
    discriminate.
Defined.

(** X13.  Whenever the round trip through [to_json] and [from_json]
    returns, the four lists come back as they were, each a value whose
    dicts have pairwise different keys; a list attribute that holds [None]
    comes back as the empty list. *)
Theorem WorldState_roundtrip_lists w text w' :
  WorldState.to_json w = Ok text ->
  WorldState.from_json text = Ok w' ->
  wf_pyval (WorldState.global_events w) = true ->
  wf_pyval (WorldState.local_events w) = true ->
  wf_pyval (WorldState.agent_states w) = true ->
  wf_pyval (WorldState.global_motifs w) = true ->
  WorldState.global_events w' = or_default (WorldState.global_events w) (VList []) /\
  WorldState.local_events w' = or_default (WorldState.local_events w) (VList []) /\
  WorldState.agent_states w' = or_default (WorldState.agent_states w) (VList []) /\
  WorldState.global_motifs w' = or_default (WorldState.global_motifs w) (VList []).
Proof.
  destruct w as [[bn| |] ge le st gm]; unfold WorldState.to_json;
    cbn [WorldState.base_network WorldState.global_events
         WorldState.local_events WorldState.agent_states
         WorldState.global_motifs]; [|done..].
  intros Htext Hfrom Hge Hle Hst Hgm. injection Htext as <-.
  change (WorldState.from_json
            (json_dumps (VDict [("base_network", bn); ("global_events", ge);
                                ("local_events", le); ("agent_states", st);
                                ("global_motifs", gm)])) = Ok w') in Hfrom.
  rewrite WorldState_from_json_dumped, WorldState_init_Data in Hfrom.
  destruct (json_loads (json_dumps bn)); [|done..].
  injection Hfrom as <-. simpl.
  by rewrite !json_loads_dumps.
Qed.

Lemma WorldState_roundtrip_lists_witness :
  exists w text w',
    WorldState.init (VList []) (Callable (fun _ => Ok (Data VNone)))
      (VList [VDict [("event", VStr "storm")]]) VNone VNone
      (VList [VStr "loss"]) = Ok w /\
    WorldState.to_json w = Ok text /\
    WorldState.from_json text = Ok w' /\
    WorldState.global_events w' = VList [VDict [("event", VStr "storm")]] /\
    WorldState.local_events w' = VList [] /\
    WorldState.agent_states w' = VList [] /\
    WorldState.global_motifs w' = VList [VStr "loss"].
Proof.
  eexists _, _, _. split; [reflexivity|]. split; [reflexivity|].
  split; [reflexivity|].
  eapply (WorldState_roundtrip_lists
            {| WorldState.base_network := Data VNone;
               WorldState.global_events := VList [VDict [("event", VStr "storm")]];
               WorldState.local_events := VList [];
               WorldState.agent_states := VList [];
               WorldState.global_motifs := VList [VStr "loss"] |});
    reflexivity.
Defined.

End world_state.

(** ** MessageManager.filter_by_metric *)

Section filtering.

Import MessageManager.

Implicit Types (m : instance) (ms : list instance) (threshold : Q).

Lemma metric_ge_metric m threshold :
  metric_ge m threshold =
  match metric m with
  | Some q => Ok (Qleb threshold q)
  | None => Raise TypeError
  end.
Proof.
  unfold metric_ge, metric, py_ge.
  by destruct (getattr m "contribution_metric" (AVal (VInt 0))).
Qed.

Lemma filter_loop_numeric ms threshold :
  Forall (fun m => is_Some (metric m)) ms ->
  filter_loop ms threshold =
  Ok (filter (fun m => from_option (Qleb threshold) false (metric m) = true) ms).
Proof.
  induction 1 as [|m ms [q Hq] _ IH]; [done|].
  cbn [filter_loop]. rewrite metric_ge_metric, Hq, IH, filter_cons, Hq. simpl.
  destruct (Qleb threshold q).
  - by rewrite decide_True.
  - by rewrite decide_False.
Qed.

Lemma filter_loop_not_numeric ms threshold :
  Exists (fun m => metric m = None) ms ->
  filter_loop ms threshold = Raise TypeError.
Proof.
  induction 1 as [m ms Hm|m ms _ IH]; cbn [filter_loop];
    rewrite metric_ge_metric.
  - by rewrite Hm.
  - rewrite IH. by destruct (metric m).
Qed.

(** X14.  When every buffered object has no [contribution_metric] or a
    number as one, [filter_by_metric] returns the buffered objects whose
    metric (0 when there is none) is at or above the threshold, in their
    buffered order, so for two thresholds the result at the higher one
    is found again by filtering the result at the lower one.  When some
    buffered object has anything else as its metric, the call raises
    [TypeError], wherever that object stands. *)
Theorem filter_by_metric_spec (self : MessageManager.t) threshold :
  (Forall (fun m => is_Some (metric m)) (_messages self) ->
   filter_by_metric self threshold =
   Ok (filter (fun m => from_option (Qleb threshold) false (metric m) = true)
              (_messages self))) /\
  (Exists (fun m => metric m = None) (_messages self) ->
   filter_by_metric self threshold = Raise TypeError).
Proof.
  unfold filter_by_metric. split.
  - apply filter_loop_numeric.
  - apply filter_loop_not_numeric.
Qed.

Lemma filter_by_metric_spec_witness :
  filter_by_metric
    {| _messages := [[("contribution_metric", AVal (VFloat (7 # 10)))];
                     BaseMessage.vars msg0;
                     [("contribution_metric", AVal (VInt 1))]] |} (1 # 2)
  = Ok [[("contribution_metric", AVal (VFloat (7 # 10)))];
        [("contribution_metric", AVal (VInt 1))]] /\
  filter_by_metric
    {| _messages := [BaseMessage.vars msg0;
                     [("contribution_metric", AVal (VStr "high"))]] |} (1 # 2)
  = Raise TypeError.
Proof.
  split.
  - apply (proj1 (filter_by_metric_spec
                    {| _messages :=
                         [[("contribution_metric", AVal (VFloat (7 # 10)))];
                          BaseMessage.vars msg0;
                          [("contribution_metric", AVal (VInt 1))]] |} (1 # 2))).
    simpl. repeat constructor; by eexists.
  - apply (proj2 (filter_by_metric_spec
                    {| _messages :=
                         [BaseMessage.vars msg0;
                          [("contribution_metric", AVal (VStr "high"))]] |}
                    (1 # 2))).
    simpl. apply Exists_cons_tl, Exists_cons_hd. reflexivity.
Defined.

End filtering.

(** ** Node.broadcast_messages: how far the loop gets *)

Section broadcast_outcome.

Import Node.

Implicit Types (s : Node.state) (m : BaseMessage.t).

Lemma broadcast_loop_outcome m nodes s :
  let out := broadcast_loop m nodes s in
  self out.2 = self s /\
  heap (world out.2) = heap (world s) /\
  clock (world out.2) = clock (world s) /\
  draws (rng (world out.2)) = draws (rng (world s)) /\
  ((out.1 = Ok () /\
    pos (rng (world out.2)) = pos (rng (world s)) + length nodes /\
    forall k, k < length nodes -> (p (self s) <= draw_at s k)%Q) \/
   (exists k, k < length nodes /\
      out.1 = Raise TypeError /\
      pos (rng (world out.2)) = pos (rng (world s)) + S k /\
      (draw_at s k < p (self s))%Q /\
      forall j, j < k -> (p (self s) <= draw_at s j)%Q)).
Proof.
  revert s. induction nodes as [|node rest IH]; intros s.
  - simpl. split_and!; try done. left. split_and!; [done|lia|]. intros k Hk.
    simpl in Hk. lia.
  - cbn [broadcast_loop]. unfold bind, in_world, draw, get_self. simpl.
    destruct (Qltb (draws (rng (world s)) (pos (rng (world s)))) (p (self s)))
      eqn:E.
    + simpl. split_and!; try done. right. exists 0. split_and!.
      * lia.
      * done.
      * lia.
      * unfold draw_at. rewrite Nat.add_0_r. by apply Qltb_lt.
      * intros j Hj. lia.
    + set (s1 := {| self := self s;
                    world := {| heap := heap (world s);
                                rng := {| draws := draws (rng (world s));
                                          pos := S (pos (rng (world s))) |};
                                clock := clock (world s) |} |}).
      destruct (IH s1) as (Hself & Hheap & Hclock & Hdraws & Hout).
      split_and!; try done.
      assert (forall k, draw_at s1 k = draw_at s (S k)) as Hshift.
      { intros k. unfold draw_at. simpl. f_equal. lia. }
      destruct Hout as [(Hok & Hpos & Hall)|(k & Hk & Hr & Hpos & Hlt & Hbefore)].
      * left. split_and!; [done| simpl in *; lia |].
        intros [|k] Hk.
        -- unfold draw_at. rewrite Nat.add_0_r. by apply Qltb_false.
        -- rewrite <- Hshift. apply Hall. simpl in Hk. lia.
      * right. exists (S k). split_and!; [simpl; lia | done | simpl in *; lia | |].
        -- by rewrite <- Hshift.
        -- intros [|j] Hj.
           ++ unfold draw_at. rewrite Nat.add_0_r. by apply Qltb_false.
           ++ rewrite <- Hshift. apply Hbefore. lia.
Qed.

(** X15.  [broadcast_messages] draws once per agent of the topology, in
    node order, until a draw falls below the dissemination probability:
    at that agent the construction of the message raises [TypeError] and
    the loop ends.  So the call returns exactly when no draw among the
    agents' is below the probability, and has then drawn once per agent;
    otherwise it raises after the first such draw.  Either way the node
    (its channel included), the content objects and the clock are as they
    were. *)
Theorem broadcast_messages_outcome m s :
  let nodes := DiGraph.nodes (BaseNetwork.graph (base_network (self s))) in
  let out := broadcast_messages m s in
  self out.2 = self s /\
  heap (world out.2) = heap (world s) /\
  clock (world out.2) = clock (world s) /\
  draws (rng (world out.2)) = draws (rng (world s)) /\
  ((out.1 = Ok () /\
    pos (rng (world out.2)) = pos (rng (world s)) + length nodes /\
    forall k, k < length nodes -> (p (self s) <= draw_at s k)%Q) \/
   (exists k, k < length nodes /\
      out.1 = Raise TypeError /\
      pos (rng (world out.2)) = pos (rng (world s)) + S k /\
      (draw_at s k < p (self s))%Q /\
      forall j, j < k -> (p (self s) <= draw_at s j)%Q)).
Proof. apply broadcast_loop_outcome. Qed.

Lemma broadcast_messages_outcome_witness :
  let s := {| self := node_abc (1 # 2); world := world0 |} in
  self (broadcast_messages msg0 s).2 = self s /\
  heap (world (broadcast_messages msg0 s).2) = heap (world s).
Proof.
  intros s.
  destruct (broadcast_messages_outcome msg0 s) as (Hself & Hheap & _).
  by split.
Defined.

End broadcast_outcome.

(** ** Node.evaluate_messages on contents of their own *)

Section scoring.

Import Node.

Variable evaluate : pyval -> result Q.

Implicit Types (s : Node.state) (m : BaseMessage.t) (ms : list BaseMessage.t).

Lemma score_Some w m q :
  score evaluate w m = Some q <-> evaluate (load w (BaseMessage.content m)) = Ok q.
Proof.
  unfold score. destruct (evaluate _); split; congruence.
Qed.

Lemma scorable_frame w w' m :
  load w' (BaseMessage.content m) = load w (BaseMessage.content m) ->
  scorable evaluate w m -> scorable evaluate w' m.
Proof. unfold scorable, score. by intros ->. Qed.

(** The state after one turn of the loop of [evaluate_messages]. *)
Lemma evaluate_loop_cons m ms s d q :
  load (world s) (BaseMessage.content m) = VDict d ->
  evaluate (VDict d) = Ok q ->
  evaluate_loop evaluate (m :: ms) s =
  evaluate_loop evaluate ms
    {| self := self s;
       world := {| heap := <[BaseMessage.content m :=
                              VDict (dict_set d "importance" (VFloat q))]>
                             (heap (world s));
                   rng := rng (world s);
                   clock := clock (world s) |} |}.
Proof. intros Hd Hq. cbn [evaluate_loop]. by rewrite Hd, Hq. Qed.

Lemma evaluate_loop_distinct ms s :
  NoDup (BaseMessage.content <$> ms) ->
  Forall (scorable evaluate (world s)) ms ->
  exists w',
    evaluate_loop evaluate ms s = (Ok (), {| self := self s; world := w' |}) /\
    rng w' = rng (world s) /\ clock w' = clock (world s) /\
    (forall l, l ∉ BaseMessage.content <$> ms -> load w' l = load (world s) l) /\
    Forall (fun m => exists d q,
              load (world s) (BaseMessage.content m) = VDict d /\
              score evaluate (world s) m = Some q /\
              load w' (BaseMessage.content m) =
                VDict (dict_set d "importance" (VFloat q))) ms.
Proof.
  revert s. induction ms as [|m ms IH]; intros s Hnd Hs.
  - exists (world s). destruct s. simpl. split_and!; try done.
  - rewrite fmap_cons in Hnd. apply NoDup_cons in Hnd as [Hm Hnd].
    apply Forall_cons in Hs as [[[d Hd] [q Hq]] Hrest].
    apply score_Some in Hq as Hev. rewrite Hd in Hev.
    set (c' := VDict (dict_set d "importance" (VFloat q))).
    set (s1 := {| self := self s;
                  world := {| heap := <[BaseMessage.content m := c']> (heap (world s));
                              rng := rng (world s);
                              clock := clock (world s) |} |}).
    assert (forall l, l ≠ BaseMessage.content m ->
                      load (world s1) l = load (world s) l) as Hframe1.
    { intros l Hl. unfold load. simpl. by rewrite lookup_total_insert_ne. }
    assert (load (world s1) (BaseMessage.content m) = c') as Hset.
    { unfold load. simpl. by rewrite lookup_total_insert_eq. }
    assert (forall m', m' ∈ ms ->
              load (world s1) (BaseMessage.content m') =
              load (world s) (BaseMessage.content m')) as Hother.
    { intros m' Hm'. apply Hframe1. intros E. apply Hm. rewrite <- E.
      apply list_elem_of_fmap. by exists m'. }
    destruct (IH s1) as (w' & Hrun & Hrng & Hclock & Hframe & Hres); [done| |].
    { apply Forall_forall. intros m' Hm'.
      apply (scorable_frame (world s)); [by apply Hother|].
      by apply (proj1 (Forall_forall _ _) Hrest). }
    exists w'. split_and!.
    + by rewrite (evaluate_loop_cons m ms s d q).
    + by rewrite Hrng.
    + by rewrite Hclock.
    + intros l Hl. rewrite fmap_cons in Hl.
      apply not_elem_of_cons in Hl as [Hne Hl].
      rewrite (Hframe l Hl). by apply Hframe1.
    + apply Forall_cons. split.
      * exists d, q. split_and!; [done..|]. by rewrite (Hframe _ Hm).
      * apply Forall_forall. intros m' Hm'.
        destruct (proj1 (Forall_forall _ _) Hres m' Hm') as (d' & q' & H1 & H2 & H3).
        exists d', q'. split_and!; [|  |done].
        -- by rewrite <- (Hother m' Hm').
        -- unfold score in *. by rewrite <- (Hother m' Hm').
Qed.

(** X16.  When the buffered messages have contents of their own (no two
    share a content object), each a dict on which the scorer returns,
    [evaluate_messages] returns; the content of every buffered message is
    then the dict it was with the scorer's result for that dict under
    ["importance"] (every other key as before); all other objects, the
    node, the random source and the clock are as they were. *)
Theorem evaluate_messages_distinct s :
  NoDup (BaseMessage.content <$> messages (broadcast (self s))) ->
  Forall (scorable evaluate (world s)) (messages (broadcast (self s))) ->
  exists w',
    evaluate_messages evaluate s = (Ok (), {| self := self s; world := w' |}) /\
    rng w' = rng (world s) /\ clock w' = clock (world s) /\
    (forall l, l ∉ BaseMessage.content <$> messages (broadcast (self s)) ->
               load w' l = load (world s) l) /\
    Forall (fun m => exists d q,
              load (world s) (BaseMessage.content m) = VDict d /\
              score evaluate (world s) m = Some q /\
              load w' (BaseMessage.content m) =
                VDict (dict_set d "importance" (VFloat q)))
           (messages (broadcast (self s))).
Proof. intros Hnd Hs. by apply evaluate_loop_distinct. Qed.

Lemma importance_after_score (w' : World) m d q :
  load w' (BaseMessage.content m) = VDict (dict_set d "importance" (VFloat q)) ->
  importance w' m = Some q.
Proof.
  intros H. unfold importance. by rewrite H, dict_get_set_eq.
Qed.

Lemma above_threshold_scores w w' ms :
  Forall (fun m => exists q, score evaluate w m = Some q /\
                             importance w' m = Some q) ms ->
  above_threshold w' ms =
  filter (fun m => from_option (Qltb (1 # 2)) false (score evaluate w m) = true) ms.
Proof.
  unfold above_threshold.
  induction 1 as [|m ms (q & Hq & Hi) _ IH]; [done|].
  rewrite !filter_cons, Hq, Hi, IH. simpl.
  destruct (Qltb (1 # 2) q).
  - by rewrite !decide_True.
  - by rewrite !decide_False.
Qed.

(** X17.  Evaluation followed by cherry-picking: under the conditions of
    X16, and with a history log that takes each of the appends, the two
    calls in sequence both return, and the history log has gained exactly
    the buffered messages on whose content (as it was before) the scorer's
    result is above 0.5, in their buffered order; the channel still
    buffers every message. *)
Theorem evaluate_then_cherrypick rejects s :
  let picked :=
    filter (fun m => from_option (Qltb (1 # 2)) false
                       (score evaluate (world s) m) = true)
           (messages (broadcast (self s))) in
  NoDup (BaseMessage.content <$> messages (broadcast (self s))) ->
  Forall (scorable evaluate (world s)) (messages (broadcast (self s))) ->
  accepts_all rejects (chain (self s)) picked ->
  exists w',
    evaluate_messages evaluate s = (Ok (), {| self := self s; world := w' |}) /\
    cherrypick_messages rejects {| self := self s; world := w' |} =
    (Ok (), {| self := with_blocks (self s) picked; world := w' |}).
Proof.
  intros picked Hnd Hs Hacc.
  destruct (evaluate_loop_distinct _ s Hnd Hs) as (w' & Hrun & _ & _ & _ & Hres).
  exists w'. split; [done|].
  assert (above_threshold w' (messages (broadcast (self s))) = picked) as Hpicked.
  { apply (above_threshold_scores (world s) w').
    eapply Forall_impl; [exact Hres|]. intros m (d & q & _ & Hq & Hload).
    exists q. split; [done|]. by eapply importance_after_score. }
  unfold cherrypick_messages. cbn [self world].
  rewrite cherrypick_loop_scored; cbn [self world].
  - unfold with_blocks. by rewrite Hpicked.
  - eapply Forall_impl; [exact Hres|]. intros m (d & q & _ & _ & Hload).
    exists q. by eapply importance_after_score.
  - by rewrite Hpicked.
Qed.

Lemma evaluate_loop_app ms1 ms2 s :
  evaluate_loop evaluate (ms1 ++ ms2) s =
  match evaluate_loop evaluate ms1 s with
  | (Ok _, s1) => evaluate_loop evaluate ms2 s1
  | (Raise e, s1) => (Raise e, s1)
  end.
Proof.
  revert s. induction ms1 as [|m ms1 IH]; intros s; [done|].
  rewrite <- app_comm_cons. cbn [evaluate_loop].
  destruct (evaluate _); [|done].
  destruct (py_setitem _ _ _); [|done].
  unfold bind, in_world, store. simpl. apply IH.
Qed.

(** X18.  [evaluate_messages] stops at the first buffered message it
    cannot score, and undoes nothing: when the loop over the messages
    ahead of [m] has run to the state [s1] and then the scorer raises on
    the content of [m], or that content is no dict, the call raises with
    the state [s1], so the importances written so far stay and the
    messages behind [m] are never scored. *)
Theorem evaluate_messages_stops s ms1 m ms2 s1 e :
  messages (broadcast (self s)) = ms1 ++ m :: ms2 ->
  evaluate_loop evaluate ms1 s = (Ok (), s1) ->
  (evaluate (load (world s1) (BaseMessage.content m)) = Raise e \/
   (is_Some (score evaluate (world s1) m) /\
    (forall d, load (world s1) (BaseMessage.content m) ≠ VDict d) /\
    e = TypeError)) ->
  evaluate_messages evaluate s = (Raise e, s1).
Proof.
  intros Hms Hrun Hfail. unfold evaluate_messages.
  rewrite Hms, evaluate_loop_app, Hrun. cbn [evaluate_loop].
  destruct Hfail as [He|([q Hq] & Hnd & ->)].
  - by rewrite He.
  - apply score_Some in Hq. rewrite Hq.
    destruct (load (world s1) (BaseMessage.content m)) as [ | | | | | |d];
      try done.
    by destruct (Hnd d).
Qed.

End scoring.

Lemma evaluate_messages_distinct_witness :
  let s := {| Node.self := node_with [msg1; msg2]; Node.world := world2 |} in
  exists w',
    Node.evaluate_messages score_high s =
      (Ok (), {| Node.self := Node.self s; Node.world := w' |}) /\
    load w' 1%positive =
      VDict [("text", VStr "hi"); ("importance", VFloat (9 # 10))] /\
    load w' 2%positive =
      VDict [("text", VStr "ho"); ("importance", VFloat (9 # 10))].
Proof.
  intros s.
  destruct (evaluate_messages_distinct score_high s) as (w' & Hrun & _ & _ & _ & Hres).
  - apply (bool_decide_unpack (NoDup [1%positive; 2%positive])). by vm_compute.
  - repeat constructor; by eexists.
  - exists w'. split; [done|].
    apply Forall_cons in Hres as [(d1 & q1 & Hd1 & Hq1 & H1) Hres].
    apply Forall_cons in Hres as [(d2 & q2 & Hd2 & Hq2 & H2) _].
    vm_compute in Hd1, Hq1, Hd2, Hq2.
    injection Hd1 as <-. injection Hq1 as <-.
    injection Hd2 as <-. injection Hq2 as <-.
    by split.
Defined.

Lemma evaluate_then_cherrypick_witness :
  let s := {| Node.self := node_with [msg1; msg2]; Node.world := world2 |} in
  exists w',
    Node.evaluate_messages score_high s =
      (Ok (), {| Node.self := Node.self s; Node.world := w' |}) /\
    Node.cherrypick_messages (log_bounded 2)
      {| Node.self := Node.self s; Node.world := w' |} =
    (Ok (), {| Node.self := with_blocks (Node.self s) [msg1; msg2];
               Node.world := w' |}).
Proof.
  intros s.
  destruct (evaluate_then_cherrypick score_high (log_bounded 2) s)
    as (w' & Hrun & Hpick).
  - apply (bool_decide_unpack (NoDup [1%positive; 2%positive])). by vm_compute.
  - repeat constructor; by eexists.
  - by vm_compute.
  - exists w'. by split.
Defined.

Lemma evaluate_messages_stops_witness :
  Node.evaluate_messages score_high
    {| Node.self := node_with [msg1; msg2]; Node.world := world_mixed |} =
  (Raise TypeError,
   {| Node.self := node_with [msg1; msg2];
      Node.world :=
        {| heap := <[1%positive := VDict [("text", VStr "hi");
                                          ("importance", VFloat (9 # 10))]]>
                     (heap world_mixed);
           rng := zero_draws;
           clock := clock0 |} |}).
Proof.
  apply (evaluate_messages_stops score_high
           {| Node.self := node_with [msg1; msg2]; Node.world := world_mixed |}
           [msg1] msg2 []).
  - reflexivity.
  - reflexivity.
  - right. split_and!; [by eexists | | reflexivity].
    intros d. by vm_compute.
Defined.

(** ** Node.cherrypick_messages: repetition and failure *)

Section committing.

Import Node.

Variable rejects : Chain -> BaseMessage.t -> option exn.

Implicit Types (s : Node.state) (m : BaseMessage.t) (ms : list BaseMessage.t).

Lemma accepts_all_app (c : Chain) ms1 ms2 :
  accepts_all rejects c (ms1 ++ ms2) <->
  accepts_all rejects c ms1 /\
  accepts_all rejects {| blocks := blocks c ++ ms1 |} ms2.
Proof.
  revert c. induction ms1 as [|m ms1 IH]; intros c; simpl.
  - rewrite app_nil_r. destruct c. simpl. tauto.
  - rewrite IH. simpl. rewrite <- app_assoc. simpl. tauto.
Qed.

Lemma cherrypick_loop_with_blocks ms s :
  Forall (scored (world s)) ms ->
  accepts_all rejects (chain (self s)) (above_threshold (world s) ms) ->
  cherrypick_loop rejects ms s =
  (Ok (), {| self := with_blocks (self s) (above_threshold (world s) ms);
             world := world s |}).
Proof. apply cherrypick_loop_scored. Qed.

Lemma cherrypick_loop_app ms1 ms2 s :
  cherrypick_loop rejects (ms1 ++ ms2) s =
  match cherrypick_loop rejects ms1 s with
  | (Ok _, s1) => cherrypick_loop rejects ms2 s1
  | (Raise e, s1) => (Raise e, s1)
  end.
Proof.
  revert s. induction ms1 as [|m ms1 IH]; intros s; [done|].
  rewrite <- app_comm_cons. cbn [cherrypick_loop].
  destruct (py_getitem _ _); [|done].
  destruct (py_gt _ _) as [[|]|]; [| |done].
  - unfold bind, commit. destruct (add_block _ _ _); [|done]. apply IH.
  - apply IH.
Qed.

Lemma cherrypick_loop_unscored m ms s :
  importance (world s) m = None ->
  exists e, cherrypick_loop rejects (m :: ms) s = (Raise e, s) /\
            (e = KeyError \/ e = TypeError).
Proof.
  unfold importance. intros Hi. cbn [cherrypick_loop].
  destruct (load (world s) (BaseMessage.content m)) as [ | | | | | |d];
    try (by exists TypeError; split; [|right]).
  simpl. destruct (dict_get d "importance") as [v|]; simpl in *.
  - unfold py_gt. rewrite Hi. exists TypeError. by split; [|right].
  - exists KeyError. by split; [|left].
Qed.

Lemma cherrypick_loop_rejected m ms s q e :
  importance (world s) m = Some q ->
  Qltb (1 # 2) q = true ->
  rejects (chain (self s)) m = Some e ->
  cherrypick_loop rejects (m :: ms) s = (Raise e, s).
Proof.
  intros Hq Hlt Hrej.
  destruct (importance_Some _ _ _ Hq) as (d & v & Hload & Hget & Hnum).
  cbn [cherrypick_loop]. rewrite Hload. simpl. rewrite Hget.
  unfold py_gt. rewrite Hnum, Hlt.
  unfold bind, commit, add_block. by rewrite Hrej.
Qed.

(** X19.  [cherrypick_messages] stops at the first buffered message that
    has no number as importance, and undoes nothing: when the messages
    ahead of it all carry one and the history log takes the appends made
    for them, the call raises [KeyError] or [TypeError], those of the
    messages ahead whose importance is above 0.5 have been committed, and
    no message behind it is looked at, whatever its importance. *)
Theorem cherrypick_messages_stops s ms1 m ms2 :
  messages (broadcast (self s)) = ms1 ++ m :: ms2 ->
  Forall (scored (world s)) ms1 ->
  accepts_all rejects (chain (self s)) (above_threshold (world s) ms1) ->
  importance (world s) m = None ->
  exists e,
    (e = KeyError \/ e = TypeError) /\
    cherrypick_messages rejects s =
    (Raise e, {| self := with_blocks (self s) (above_threshold (world s) ms1);
                 world := world s |}).
Proof.
  intros Hms Hs Hacc Hm. unfold cherrypick_messages.
  rewrite Hms, cherrypick_loop_app, cherrypick_loop_with_blocks by done.
  destruct (cherrypick_loop_unscored m ms2
              {| self := with_blocks (self s) (above_threshold (world s) ms1);
                 world := world s |} Hm) as (e & -> & He).
  by exists e.
Qed.

(** X20.  The channel is not emptied by [cherrypick_messages], so a second
    call commits the same messages once more: after two calls on a
    channel whose messages all carry an importance, with a history log
    that takes all the appends, the log has gained the qualifying
    messages twice. *)
Theorem cherrypick_messages_twice s :
  let picked := above_threshold (world s) (messages (broadcast (self s))) in
  Forall (scored (world s)) (messages (broadcast (self s))) ->
  accepts_all rejects (chain (self s)) (picked ++ picked) ->
  (cherrypick_messages rejects s).1 = Ok () /\
  cherrypick_messages rejects (cherrypick_messages rejects s).2 =
  (Ok (), {| self := with_blocks (self s) (picked ++ picked);
             world := world s |}).
Proof.
  intros picked Hs [Hacc1 Hacc2]%accepts_all_app. unfold cherrypick_messages.
  rewrite cherrypick_loop_with_blocks by done. split; [done|].
  cbn [snd self world with_blocks broadcast].
  rewrite cherrypick_loop_with_blocks by done.
  unfold with_blocks. simpl. by rewrite <- app_assoc.
Qed.

(** X25.  A rejected append is surfaced and undoes nothing: when the
    messages ahead of [m] all carry an importance and the history log
    takes the appends made for them, [m] has an importance above 0.5 and
    the log rejects its append with [e], the call raises [e]; the commits
    made before stay, and no message behind [m] is looked at. *)
Theorem cherrypick_messages_rejected s ms1 m ms2 q e :
  messages (broadcast (self s)) = ms1 ++ m :: ms2 ->
  Forall (scored (world s)) ms1 ->
  accepts_all rejects (chain (self s)) (above_threshold (world s) ms1) ->
  importance (world s) m = Some q ->
  Qltb (1 # 2) q = true ->
  rejects {| blocks := blocks (chain (self s)) ++
                       above_threshold (world s) ms1 |} m = Some e ->
  cherrypick_messages rejects s =
  (Raise e, {| self := with_blocks (self s) (above_threshold (world s) ms1);
               world := world s |}).
Proof.
  intros Hms Hs Hacc Hq Hlt Hrej. unfold cherrypick_messages.
  rewrite Hms, cherrypick_loop_app, cherrypick_loop_with_blocks by done.
  by apply (cherrypick_loop_rejected m ms2 _ q e).
Qed.

End committing.

Lemma cherrypick_messages_stops_witness :
  let s := {| Node.self := node_with [msg2; msg1; msg2]; Node.world := world1 |} in
  exists e,
    (e = KeyError \/ e = TypeError) /\
    Node.cherrypick_messages (log_bounded 1) s =
    (Raise e, {| Node.self := with_blocks (Node.self s)
                                (above_threshold world1 [msg2]);
                 Node.world := world1 |}).
Proof.
  apply (cherrypick_messages_stops (log_bounded 1)
           {| Node.self := node_with [msg2; msg1; msg2]; Node.world := world1 |}
           [msg2] msg1 [msg2]).
  - reflexivity.
  - repeat constructor. by eexists.
  - by vm_compute.
  - reflexivity.
Defined.

Lemma cherrypick_messages_twice_witness :
  let s := {| Node.self := node_with [msg_at 1%positive; msg_at 2%positive; msg_at 3%positive];
              Node.world := world3 |} in
  (Node.cherrypick_messages (log_bounded 4) s).1 = Ok () /\
  Node.cherrypick_messages (log_bounded 4)
    (Node.cherrypick_messages (log_bounded 4) s).2 =
  (Ok (), {| Node.self := with_blocks (Node.self s)
                            ([msg_at 1%positive; msg_at 3%positive] ++
                             [msg_at 1%positive; msg_at 3%positive]);
             Node.world := world3 |}).
Proof.
  apply (cherrypick_messages_twice (log_bounded 4)
           {| Node.self := node_with [msg_at 1%positive; msg_at 2%positive; msg_at 3%positive];
              Node.world := world3 |}).
  - simpl. repeat constructor; by eexists.
  - by vm_compute.
Defined.

Lemma cherrypick_messages_rejected_witness :
  let s := {| Node.self := node_with [msg_at 1%positive; msg_at 2%positive; msg_at 3%positive];
              Node.world := world3 |} in
  Node.cherrypick_messages (log_bounded 1) s =
  (Raise CommitFailure,
   {| Node.self := with_blocks (Node.self s) [msg_at 1%positive];
      Node.world := world3 |}).
Proof.
  apply (cherrypick_messages_rejected (log_bounded 1)
           {| Node.self := node_with [msg_at 1%positive; msg_at 2%positive; msg_at 3%positive];
              Node.world := world3 |}
           [msg_at 1%positive; msg_at 2%positive] (msg_at 3%positive) []
           (6 # 10) CommitFailure).
  - reflexivity.
  - repeat constructor; by eexists.
  - by vm_compute.
  - reflexivity.
  - reflexivity.
  - reflexivity.
Defined.

(** ** BaseConversation: serialisation *)

Section conversation_json.

Import BaseConversation.

Variable json_parse : string -> result json.

Implicit Types (c : BaseConversation.t) (w : World) (m : BaseMessage.t).

(** X21.  [from_json] never returns a conversation: whatever the text and
    however its strings parse, the call raises.  Where the text is sound
    the exception comes from the call of the class, which gives
    [conversation_id] and [messages] and leaves [owner_id] out. *)
Theorem BaseConversation_from_json_raises text w :
  exists e w', from_json json_parse text w = (Raise e, w').
Proof.
  unfold from_json.
  destruct (py_getitem (json_loads text) "messages") as [field0|e];
    [|by exists e, w].
  destruct (py_iter field0) as [items|e]; [|by exists e, w].
  unfold bind.
  destruct (messages_from_json json_parse items w) as [[ms|e] w1];
    [|by exists e, w1].
  destruct (py_getitem (json_loads text) "conversation_id") as [cid|e];
    [|by exists e, w1].
  by exists TypeError, w1.
Qed.



Lemma to_json_loads c w :
  json_loads (to_json c w) =
  VDict [("conversation_id", json_loads (json_dumps (conversation_id c)));
         ("messages",
          VList ((fun m => json_loads (json_dumps
                             (json_loads (BaseMessage.to_json m w))))
                   <$> messages c))].
Proof.
  unfold to_json. simpl. do 3 f_equal.
  rewrite map_map. by rewrite <- list_fmap_compose.
Qed.



Lemma wf_message_dict w m :
  wf_pyval (BaseMessage.sender m) = true ->
  wf_pyval (BaseMessage.receiver m) = true ->
  wf_pyval (BaseMessage.message_type m) = true ->
  wf_pyval (load w (BaseMessage.content m)) = true ->
  wf_pyval (message_dict w m) = true.
Proof.
  intros Hs Hr Ht Hc. unfold message_dict.
  cbn [wf_pyval forallb fmap list_fmap fst snd].
  rewrite Hs, Hr, Ht, Hc. by vm_compute.
Qed.

(** X23.  In the text [to_json] gives, each message stands as the dict of
    its five fields, in the order of the conversation, and the
    conversation id is as it was: loading the text gives exactly that
    data, when no dict among the fields repeats a key. *)
Theorem BaseConversation_to_json_loads c w :
  wf_pyval (conversation_id c) = true ->
  Forall (fun m => wf_pyval (message_dict w m) = true) (messages c) ->
  json_loads (to_json c w) =
  VDict [("conversation_id", conversation_id c);
         ("messages", VList (message_dict w <$> messages c))].
Proof.
  intros Hcid Hms. rewrite to_json_loads, (json_loads_dumps _ Hcid).
  assert ((fun m => json_loads (json_dumps
                      (json_loads (BaseMessage.to_json m w)))) <$> messages c
          = message_dict w <$> messages c) as ->; [|done].
  apply Forall_fmap_ext_1.
  eapply Forall_impl; [exact Hms|]. intros m Hm.
  change (BaseMessage.to_json m w) with (json_dumps (message_dict w m)).
  cbv beta in Hm. by rewrite !(json_loads_dumps _ Hm).
Qed.

End conversation_json.

Lemma BaseConversation_to_json_loads_witness :
  json_loads (BaseConversation.to_json conv0 world0) =
  VDict [("conversation_id", VStr "c1");
         ("messages", VList [message_dict world0 msg0])].
Proof.
  apply (BaseConversation_to_json_loads conv0 world0); [reflexivity|].
  repeat constructor.
Defined.

(** ** BaseConversation.add_api_message *)

Section conversation_api.

Import BaseConversation.

Variable llm_call : json -> result string.

Implicit Types (s : BaseConversation.state) (m : BaseMessage.t).

(** X24.  [add_api_message] records the message first and asks the model
    with its dumped content afterwards.  When the model's call raises, the
    exception goes to the caller and the message stays recorded; on an
    empty reply the message alone is recorded; on any other reply a second
    message follows it, from ["system"] to the conversation id, of type
    ["system_response"], whose content is a new object holding the reply
    as [[{"text": reply}]], every object that existed being left as it
    was. *)
Theorem add_api_message_cases m s :
  let prompt := json_dumps (load (world s) (BaseMessage.content m)) in
  (forall e, llm_call prompt = Raise e ->
     add_api_message llm_call m s =
     (Raise e, {| self := with_messages (self s) [m]; world := world s |})) /\
  (llm_call prompt = Ok "" ->
     add_api_message llm_call m s =
     (Ok (), {| self := with_messages (self s) [m]; world := world s |})) /\
  (forall reply, llm_call prompt = Ok reply -> reply ≠ "" ->
     exists r w',
       add_api_message llm_call m s =
       (Ok (), {| self := with_messages (self s) [m; r]; world := w' |}) /\
       BaseMessage.sender r = VStr "system" /\
       BaseMessage.receiver r = conversation_id (self s) /\
       BaseMessage.message_type r = VStr "system_response" /\
       (BaseMessage.content r ∉ dom (heap (world s))) /\
       load w' (BaseMessage.content r) = VList [VDict [("text", VStr reply)]] /\
       (forall l, l ∈ dom (heap (world s)) -> load w' l = load (world s) l)).
Proof.
  intros prompt. unfold add_api_message, bind, add_message. cbn [world self].
  fold prompt. split_and!.
  - by intros e ->.
  - by intros ->.
  - intros reply -> Hne. rewrite decide_False by done.
    unfold in_world, alloc, BaseMessage.new, BaseMessage.init, bind, now, ret.
    simpl. eexists _, _. split.
    + unfold with_messages. simpl. rewrite <- app_assoc. reflexivity.
    + simpl. split_and!; try done.
      * apply is_fresh.
      * unfold load. simpl. apply lookup_total_insert_eq.
      * intros l Hl. unfold load. simpl. apply lookup_total_insert_ne.
        intros <-. by apply (is_fresh (dom (heap (world s)))).
Qed.

End conversation_api.

Lemma add_api_message_cases_witness :
  let s := {| BaseConversation.self := conv0; BaseConversation.world := world0 |} in
  BaseConversation.add_api_message llm_down msg0 s =
    (Raise ValueError,
     {| BaseConversation.self := with_messages conv0 [msg0];
        BaseConversation.world := world0 |}) /\
  BaseConversation.add_api_message llm_silent msg0 s =
    (Ok (),
     {| BaseConversation.self := with_messages conv0 [msg0];
        BaseConversation.world := world0 |}) /\
  exists r w',
    BaseConversation.add_api_message llm_ok msg0 s =
    (Ok (), {| BaseConversation.self := with_messages conv0 [msg0; r];
               BaseConversation.world := w' |}) /\
    load w' (BaseMessage.content r) = VList [VDict [("text", VStr "ok")]].
Proof.
  intros s. split_and!.
  - apply (proj1 (add_api_message_cases llm_down msg0 s)). reflexivity.
  - apply (proj1 (proj2 (add_api_message_cases llm_silent msg0 s))). reflexivity.
  - destruct (proj2 (proj2 (add_api_message_cases llm_ok msg0 s)) "ok")
      as (r & w' & Hrun & _ & _ & _ & _ & Hload & _); [reflexivity|done|].
    by exists r, w'.
Defined.
